(** * Agents orchestration: the dispatcher of [main.py] and its providers

    A shallow embedding of [main.py]: the five [Agent] subclasses, the
    [AutonomousDispatcherAgent] (plan parsing, routing, concurrent execution
    with [asyncio.gather], aggregation), together with the parts of the Python
    runtime the program observes ([str.strip], [str.split], [dict.get],
    truthiness, slicing, [json.loads]).

    What lies outside the program is a parameter: the completion service
    [client.chat.complete] is an oracle that answers each call with a text or
    an exception after some time; the interpreter sets how deep the JSON
    decoder may nest, how many digits [int] converts and which characters
    [sys.stdout] encodes; [repr] and [json.dumps], which only shape the
    wording of prompts, are functions left open.  Effects are explicit: a
    computation takes the world (the prompts sent so far, the lines printed
    so far) and returns a value or an exception together with the new
    world. *)

From Stdlib Require Import String Ascii ZArith NArith Bool Lia PeanoNat DecimalString List.
Import ListNotations.

Local Open Scope string_scope.
Local Open Scope list_scope.
Local Open Scope bool_scope.

(** ** Python strings

    A Python [str] is a sequence of Unicode code points.  String constants of
    the source are ASCII and are written as Rocq string literals, injected by
    the coercion [lit]. *)

Definition char := N.
Definition str := list char.

Definition lit (s : string) : str := map N_of_ascii (list_ascii_of_string s).
Coercion lit : string >-> str.

Fixpoint str_eqb (a b : str) : bool :=
  match a, b with
  | [], [] => true
  | x :: a', y :: b' => N.eqb x y && str_eqb a' b'
  | _, _ => false
  end.

(** [str.isspace] for one character: the code points Python treats as
    whitespace. *)
Definition isspace (c : char) : bool :=
  ((9 <=? c) && (c <=? 13) || (28 <=? c) && (c <=? 32) || (c =? 133) || (c =? 160)
   || (c =? 5760) || (8192 <=? c) && (c <=? 8202) || (c =? 8232) || (c =? 8233)
   || (c =? 8239) || (c =? 8287) || (c =? 12288))%N.

Fixpoint lstrip (s : str) : str :=
  match s with
  | [] => []
  | c :: t => if isspace c then lstrip t else s
  end.

Definition rstrip (s : str) : str := rev (lstrip (rev s)).

(** [s.strip()] *)
Definition strip (s : str) : str := rstrip (lstrip s).

(** [s.split(sep)] for a one-character separator: never empty, one fragment
    more than there are separators. *)
Fixpoint split (sep : char) (s : str) : list str :=
  match s with
  | [] => [[]]
  | c :: t =>
      if N.eqb c sep then [] :: split sep t
      else match split sep t with
           | f :: fs => (c :: f) :: fs
           | [] => [[c]]
           end
  end.

(** Appends [c] to the last fragment. *)
Fixpoint snoc_last (c : char) (fs : list str) : list str :=
  match fs with
  | [] => [[c]]
  | [f] => [f ++ [c]]
  | f :: fs' => f :: snoc_last c fs'
  end.

(** [a + b] on strings *)
Definition cat (a b : str) : str := a ++ b.
Infix "+++" := cat (right associativity, at level 60).

Definition comma : char := 44%N.
Definition newline : str := [10%N].
Definition quote : char := 34%N.

(** [sep.join(l)] *)
Fixpoint join (sep : str) (l : list str) : str :=
  match l with
  | [] => []
  | x :: l' =>
      match l' with
      | [] => x
      | _ :: _ => x ++ sep ++ join sep l'
      end
  end.

(** A text written with apostrophes where it has double quotes. *)
Definition dq (s : str) : str := map (fun c => if (c =? 39)%N then quote else c) s.

(** ** Python values

    The values that flow through the program: what [json.loads] produces and
    what the providers build.  A [dict] is an association list in insertion
    order with unique keys; all keys of the program are strings. *)

(** A [float] is kept as the literal it was decoded from. *)
Inductive pyfloat : Type :=
| FDec (neg : bool) (mant : N) (exp10 : Z)   (* the decimal literal +-mant * 10^exp10 *)
| FNaN
| FInf (neg : bool).

Unset Elimination Schemes.

Inductive pyval : Type :=
| PNone
| PBool (b : bool)
| PInt (z : Z)
| PFloat (f : pyfloat)
| PStr (s : str)
| PList (l : list pyval)
| PDict (d : list (str * pyval)).

Set Elimination Schemes.

Definition pydict := list (str * pyval).

Inductive exn : Type :=
| JSONDecodeError
| AttributeError
| TypeError
| RecursionError
| ValueError                    (* a [ValueError] that is no [JSONDecodeError] *)
| UnicodeEncodeError
| ClientError (detail : str).   (* whatever [client.chat.complete] raises *)

(** What the interpreter that runs the program sets.

    The JSON decoder takes one level of recursion for every array or object
    it enters.  Inside the scanner a decode error is raised by a call of
    [JSONDecodeError], which takes [error_levels] levels, and [NaN],
    [Infinity] and [-Infinity] are looked up by a call of [parse_constant],
    which takes [constant_levels]; a call for which the levels left do not
    suffice raises [RecursionError] instead.  Where the program calls
    [json.loads], the levels left to the scanner are [error_levels] and
    [headroom] more: [json.loads] is called in the frame that has just
    awaited [asyncio.to_thread], which goes deeper than raising the decode
    error does.

    [int_max_str_digits] is [sys.get_int_max_str_digits()], the most digits
    [int] converts from a text, [0] for no limit.  [stdout_encodes] tells
    which characters beyond ASCII the encoding of [sys.stdout] has; ASCII it
    always has. *)
Record interpreter : Type :=
  { error_levels : nat;
    constant_levels : nat;
    headroom : nat;
    int_max_str_digits : nat;
    stdout_encodes : char -> bool }.

(** The number of arrays and objects, one inside the other, that the decoder
    may enter. *)
Definition recursion_remaining (python : interpreter) : nat :=
  error_levels python + headroom python.

(** A computation that returns or raises. *)
Definition res (A : Type) := (A + exn)%type.

Fixpoint dict_get {V : Type} (k : str) (d : list (str * V)) : option V :=
  match d with
  | [] => None
  | (k', v) :: d' => if str_eqb k k' then Some v else dict_get k d'
  end.

(** [d[k] = v]: an existing key keeps its position, a new key goes last. *)
Fixpoint dict_set {V : Type} (k : str) (v : V) (d : list (str * V)) : list (str * V) :=
  match d with
  | [] => [(k, v)]
  | (k', v') :: d' => if str_eqb k k' then (k', v) :: d' else (k', v') :: dict_set k v d'
  end.

Definition keys {V : Type} (d : list (str * V)) : list str := map fst d.

(** A literal decimal [m * 10^e] is read as the nearest binary64 number; it is
    the float zero exactly when it is at most half the least subnormal,
    [2^-1075]. *)
Definition float_nonzero (f : pyfloat) : bool :=
  match f with
  | FDec _ m e =>
      if (0 <=? e)%Z then negb (N.eqb m 0)
      else (10 ^ Z.to_N (- e) <? m * 2 ^ 1075)%N
  | FNaN => true
  | FInf _ => true
  end.

(** Truth value of a Python object, as tested by [if x] and [not x]. *)
Definition truthy (v : pyval) : bool :=
  match v with
  | PNone => false
  | PBool b => b
  | PInt z => negb (Z.eqb z 0)
  | PFloat f => float_nonzero f
  | PStr s => match s with [] => false | _ => true end
  | PList l => match l with [] => false | _ => true end
  | PDict d => match d with [] => false | _ => true end
  end.

(** [obj.get(key, default)]: only a dict has the method. *)
Definition py_get (obj : pyval) (key : str) (default : pyval) : res pyval :=
  match obj with
  | PDict d => inl (match dict_get key d with Some v => v | None => default end)
  | _ => inr AttributeError
  end.

(** The items a [for] loop draws from an object. *)
Definition py_iter (obj : pyval) : res (list pyval) :=
  match obj with
  | PList l => inl l
  | PDict d => inl (map (fun kv => PStr (fst kv)) d)
  | PStr s => inl (map (fun c => PStr [c]) s)
  | _ => inr TypeError
  end.

(** [l[:stop]] *)
Definition py_slice_to {A : Type} (l : list A) (stop : pyval) : res (list A) :=
  let upto (z : Z) :=
    if (0 <=? z)%Z then firstn (Z.to_nat z) l
    else firstn (length l - Z.to_nat (- z)) l in
  match stop with
  | PNone => inl l
  | PInt z => inl (upto z)
  | PBool b => inl (upto (if b then 1 else 0)%Z)
  | _ => inr TypeError
  end.

(** ** [json.loads]

    The decoder of the standard library, after its scanner: [scanstring] for
    string literals (strict mode), the number pattern, and [scan_once] with the
    array and object loops.  Entering an array or an object takes one level of
    recursion, and an integer literal is converted by [int], which refuses a
    text of too many digits. *)

(** What a scanner does at a position: it reads a value and leaves the rest,
    or the text is malformed there ([JSONDecodeError]), or another exception
    is raised there, or it has used up its fuel (which the decoder below never
    lets happen, see [json_loads_fuel]).  [Bad] is also what the scanner
    gives where it finds no value at all: it stops the iteration, and the
    decode error is raised outside the scanner, by [raw_decode]. *)
Inductive scan (A : Type) : Type :=
| Ok (a : A) (rest : str)
| Bad
| Raise (e : exn)
| Fuel.
Arguments Ok {A} a rest.
Arguments Bad {A}.
Arguments Raise {A} e.
Arguments Fuel {A}.

Definition json_space (c : char) : bool :=
  ((c =? 32) || (c =? 9) || (c =? 10) || (c =? 13))%N.

Fixpoint skip_ws (s : str) : str :=
  match s with
  | [] => []
  | c :: t => if json_space c then skip_ws t else s
  end.

Definition isdigit (c : char) : bool := ((48 <=? c) && (c <=? 57))%N.

Definition hexval (c : char) : option N :=
  if isdigit c then Some (c - 48)%N
  else if ((97 <=? c) && (c <=? 102))%N then Some (c - 87)%N
  else if ((65 <=? c) && (c <=? 70))%N then Some (c - 55)%N
  else None.

Definition hex4 (a b c d : char) : option N :=
  match hexval a, hexval b, hexval c, hexval d with
  | Some x, Some y, Some z, Some w => Some (((x * 16 + y) * 16 + z) * 16 + w)%N
  | _, _, _, _ => None
  end.

Definition high_surrogate (u : N) : bool := ((55296 <=? u) && (u <=? 56319))%N.
Definition low_surrogate (u : N) : bool := ((56320 <=? u) && (u <=? 57343))%N.
Definition join_surrogates (hi lo : N) : N :=
  (65536 + (hi - 55296) * 1024 + (lo - 56320))%N.

(** The character after a backslash, other than [u]. *)
Definition unescape (e : char) : option char :=
  if (e =? 34)%N then Some 34%N            (* quote *)
  else if (e =? 92)%N then Some 92%N       (* backslash *)
  else if (e =? 47)%N then Some 47%N       (* slash *)
  else if (e =? 98)%N then Some 8%N        (* b *)
  else if (e =? 102)%N then Some 12%N      (* f *)
  else if (e =? 110)%N then Some 10%N      (* n *)
  else if (e =? 114)%N then Some 13%N      (* r *)
  else if (e =? 116)%N then Some 9%N       (* t *)
  else None.

(** The body of a string literal, after the opening quote; [acc] holds the
    characters read so far, last first. *)
Fixpoint scanstring (s : str) (acc : str) {struct s} : option (str * str) :=
  match s with
  | [] => None
  | c :: t =>
      if (c =? 34)%N then Some (rev acc, t)
      else if (c =? 92)%N then
        match t with
        | [] => None
        | e :: t1 =>
            if (e =? 117)%N then
              match t1 with
              | h1 :: h2 :: h3 :: h4 :: t2 =>
                  match hex4 h1 h2 h3 h4 with
                  | None => None
                  | Some u =>
                      if high_surrogate u then
                        match t2 with
                        | b :: v :: g1 :: g2 :: g3 :: g4 :: t3 =>
                            match (if ((b =? 92) && (v =? 117))%N
                                   then hex4 g1 g2 g3 g4 else None) with
                            | Some u2 =>
                                if low_surrogate u2
                                then scanstring t3 (join_surrogates u u2 :: acc)
                                else scanstring t2 (u :: acc)
                            | None => scanstring t2 (u :: acc)
                            end
                        | _ => scanstring t2 (u :: acc)
                        end
                      else scanstring t2 (u :: acc)
                  end
              | _ => None
              end
            else match unescape e with
                 | Some x => scanstring t1 (x :: acc)
                 | None => None
                 end
        end
      else if (c <? 32)%N then None
      else scanstring t (c :: acc)
  end.

(** A run of decimal digits: its value continuing [acc], how many there were,
    and what follows. *)
Fixpoint digits (s : str) (acc : N) (count : nat) : N * nat * str :=
  match s with
  | c :: t => if isdigit c then digits t (acc * 10 + (c - 48))%N (S count) else (acc, count, s)
  | [] => (acc, count, s)
  end.

(** The fraction that may follow the integer part [int]: a dot and at least
    one digit.  Yields the digits read so far as one number, how many of them
    are fraction digits, and what follows. *)
Definition fraction (int : N) (s : str) : N * nat * str :=
  match s with
  | dot :: d :: _ =>
      if ((dot =? 46)%N && isdigit d) then digits (tl s) int 0 else (int, 0, s)
  | _ => (int, 0, s)
  end.

Definition exponent_digits (negative : bool) (s : str) : option (Z * str) :=
  let '(e, count, r) := digits s 0%N 0 in
  match count with
  | O => None
  | S _ => Some ((if negative then - Z.of_N e else Z.of_N e)%Z, r)
  end.

(** [Some rest] when [s] starts with [p]. *)
Fixpoint after_prefix (p s : str) : option str :=
  match p, s with
  | [], _ => Some s
  | a :: p', b :: s' => if N.eqb a b then after_prefix p' s' else None
  | _ :: _, [] => None
  end.

(** [dict(pairs)] *)
Definition dict_of_pairs (pairs : list (str * pyval)) : pydict :=
  fold_left (fun d kv => dict_set (fst kv) (snd kv) d) pairs [].

(** The exponent that may follow: [e] or [E], a sign or none, at least one
    digit; otherwise nothing is read. *)
Definition exponent (s : str) : option (Z * str) :=
  match s with
  | e :: sign :: t =>
      if ((e =? 101) || (e =? 69))%N then
        if (sign =? 45)%N then exponent_digits true t
        else if (sign =? 43)%N then exponent_digits false t
        else exponent_digits false (sign :: t)
      else None
  | _ => None
  end.

Section Decoder.

Variable python : interpreter.

(** [int] of a text of [ndigits] digits raises [ValueError] when the digits
    are more than 640 and more than a limit that is set. *)
Definition too_many_digits (ndigits : nat) : bool :=
  ((640 <? ndigits) && (0 <? int_max_str_digits python)
   && (int_max_str_digits python <? ndigits))%nat.

(** The number whose integer part [int], of [ndigits] digits, has been read:
    an [int] without fraction and exponent, a [float] otherwise. *)
Definition match_fraction (neg : bool) (int : N) (ndigits : nat) (s : str) : scan pyval :=
  let '(mant, nfrac, s1) := fraction int s in
  match exponent s1 with
  | Some (x, r) => Ok (PFloat (FDec neg mant (x - Z.of_nat nfrac))) r
  | None =>
      match nfrac with
      | O =>
          if too_many_digits ndigits then Raise ValueError
          else Ok (PInt (if neg then - Z.of_N int else Z.of_N int)) s1
      | S _ => Ok (PFloat (FDec neg mant (- Z.of_nat nfrac))) s1
      end
  end.

(** The integer part: a lone zero, or digits that do not start with zero. *)
Definition match_integer (neg : bool) (s : str) : scan pyval :=
  match s with
  | c :: t =>
      if (c =? 48)%N then match_fraction neg 0 1 t
      else if isdigit c then
        let '(int, ndigits, r) := digits s 0%N 0 in
        match_fraction neg int ndigits r
      else Bad
  | [] => Bad
  end.

Definition match_number (s : str) : scan pyval :=
  match s with
  | c :: t => if (c =? 45)%N then match_integer true t else match_integer false s
  | [] => Bad
  end.

(** [null], [true] and [false]. *)
Definition keyword (word : string) (v : pyval) (s : str) : scan pyval :=
  match after_prefix word s with
  | Some r => Ok v r
  | None => match_number s
  end.

(** [NaN], [Infinity] and [-Infinity], with [depth] levels left. *)
Definition constant (word : string) (v : pyval) (depth : nat) (s : str) : scan pyval :=
  match after_prefix word s with
  | Some r => if (constant_levels python <=? depth)%nat then Ok v r else Raise RecursionError
  | None => match_number s
  end.

(** A decode error that the scanner raises itself, with [depth] levels
    left. *)
Definition malformed (depth : nat) : scan pyval :=
  if (error_levels python <=? depth)%nat then Bad else Raise RecursionError.

(** [depth] is the number of levels left: of arrays and objects that may
    still be entered. *)
Fixpoint scan_once (fuel depth : nat) (s : str) {struct fuel} : scan pyval :=
  match fuel with
  | O => Fuel
  | S fuel' =>
      match s with
      | [] => Bad
      | c :: t =>
          if (c =? 34)%N then
            match scanstring t [] with
            | Some (x, r) => Ok (PStr x) r
            | None => malformed depth
            end
          else if (c =? 123)%N then
            match depth with
            | O => Raise RecursionError
            | S depth' =>
                match skip_ws t with
                | c' :: r =>
                    if (c' =? 125)%N then Ok (PDict []) r
                    else object_items fuel' depth' (c' :: r) []
                | [] => malformed depth'
                end
            end
          else if (c =? 91)%N then
            match depth with
            | O => Raise RecursionError
            | S depth' =>
                match skip_ws t with
                | c' :: r =>
                    if (c' =? 93)%N then Ok (PList []) r
                    else array_items fuel' depth' (c' :: r) []
                | [] => Bad
                end
            end
          else if (c =? 110)%N then keyword "null" PNone s
          else if (c =? 116)%N then keyword "true" (PBool true) s
          else if (c =? 102)%N then keyword "false" (PBool false) s
          else if (c =? 78)%N then constant "NaN" (PFloat FNaN) depth s
          else if (c =? 73)%N then constant "Infinity" (PFloat (FInf false)) depth s
          else if (c =? 45)%N then constant "-Infinity" (PFloat (FInf true)) depth s
          else match_number s
      end
  end

with array_items (fuel depth : nat) (s : str) (acc : list pyval) {struct fuel} : scan pyval :=
  match fuel with
  | O => Fuel
  | S fuel' =>
      match scan_once fuel' depth s with
      | Ok v r =>
          match skip_ws r with
          | c :: r' =>
              if (c =? 93)%N then Ok (PList (rev (v :: acc))) r'
              else if (c =? 44)%N then array_items fuel' depth (skip_ws r') (v :: acc)
              else malformed depth
          | [] => malformed depth
          end
      | Bad => Bad
      | Raise e => Raise e
      | Fuel => Fuel
      end
  end

with object_items (fuel depth : nat) (s : str) (acc : list (str * pyval)) {struct fuel}
    : scan pyval :=
  match fuel with
  | O => Fuel
  | S fuel' =>
      match s with
      | q :: t =>
          if (q =? 34)%N then
            match scanstring t [] with
            | Some (key, r) =>
                match skip_ws r with
                | colon :: r1 =>
                    if (colon =? 58)%N then
                      match scan_once fuel' depth (skip_ws r1) with
                      | Ok v r2 =>
                          match skip_ws r2 with
                          | c :: r3 =>
                              if (c =? 125)%N
                              then Ok (PDict (dict_of_pairs (rev ((key, v) :: acc)))) r3
                              else if (c =? 44)%N
                              then object_items fuel' depth (skip_ws r3) ((key, v) :: acc)
                              else malformed depth
                          | [] => malformed depth
                          end
                      | Bad => Bad
                      | Raise e => Raise e
                      | Fuel => Fuel
                      end
                    else malformed depth
                | [] => malformed depth
                end
            | None => malformed depth
            end
          else malformed depth
      | [] => malformed depth
      end
  end.

(** [json.loads(s)] for a [str] argument.  The decode errors about the
    byte-order mark, a text without a value and what follows the value are
    raised outside the scanner, with levels enough. *)
Definition json_loads (s : str) : res pyval :=
  match after_prefix [65279%N] s with
  | Some _ => inr JSONDecodeError
  | None =>
      match scan_once (2 * length s + 2) (recursion_remaining python) (skip_ws s) with
      | Ok v r => match skip_ws r with [] => inl v | _ :: _ => inr JSONDecodeError end
      | Raise e => inr e
      | _ => inr JSONDecodeError
      end
  end.

End Decoder.

(** ** Effects

    What the program does to the outside: calls to the completion service
    [client.chat.complete] and lines printed.  A call is handed to a thread of
    the executor by [asyncio.to_thread]: it waits [queued] until a thread
    takes it up and is answered [latency] later with the text of
    [response.choices[0].message.content] or with an exception.  The service
    may answer the same prompt differently from one call to the next, so an
    answer depends on how many calls were handed over before. *)

Record completion : Type := { outcome : res str; queued : nat; latency : nat }.

Definition Oracle := nat -> str -> completion.

Record world : Type := { calls : list str; stdout : list str }.

Definition M (A : Type) : Type := world -> res A * world.

Class Monad (m : Type -> Type) : Type :=
  { ret : forall {A : Type}, A -> m A;
    bind : forall {A B : Type}, m A -> (A -> m B) -> m B }.

#[global] Instance Monad_res : Monad res :=
  { ret := fun A a => inl a;
    bind := fun A B c f => match c with inl a => f a | inr e => inr e end }.

#[global] Instance Monad_M : Monad M :=
  { ret := fun A a w => (inl a, w);
    bind := fun A B c f w =>
              match c w with
              | (inl a, w') => f a w'
              | (inr e, w') => (inr e, w')
              end }.

Notation "x <- c ;; k" := (bind c (fun x => k))
  (at level 61, c at next level, right associativity).
Notation "c ;; k" := (bind c (fun _ => k))
  (at level 61, right associativity).

(** A computation without effects, inside an effectful one. *)
Definition lift {A : Type} (c : res A) : M A := fun w => (c, w).

(** [sys.stdout] encodes ASCII and what the interpreter says. *)
Definition encodable (python : interpreter) (c : char) : bool :=
  (c <? 128)%N || stdout_encodes python c.

Definition printable (python : interpreter) (s : str) : bool :=
  forallb (encodable python) s.

(** [print] writes its arguments one after the other, a blank before
    each but the first, and then the line end; the write of a text that
    [sys.stdout] cannot encode raises and writes nothing of it.  [None] when
    every argument is written, or the text written before the argument that
    is not. *)
Fixpoint cut_short (python : interpreter) (args : list str) : option str :=
  match args with
  | [] => None
  | arg :: args' =>
      if printable python arg then
        match args' with
        | [] => None
        | _ :: _ =>
            match cut_short python args' with
            | Some written => Some (arg +++ " " +++ written)
            | None => None
            end
        end
      else Some []
  end.

(** An entry of [stdout] is what one [print] wrote, without the line end; a
    [print] that raised after it wrote something leaves that as the last
    entry. *)
Definition print (python : interpreter) (args : list str) : M unit :=
  fun w =>
    match cut_short python args with
    | None => (inl tt, {| calls := calls w; stdout := stdout w ++ [join " " args] |})
    | Some [] => (inr UnicodeEncodeError, w)
    | Some written =>
        (inr UnicodeEncodeError, {| calls := calls w; stdout := stdout w ++ [written] |})
    end.

Definition sent (prompt : str) (w : world) : world :=
  {| calls := calls w ++ [prompt]; stdout := stdout w |}.

(** An [async def run] of a provider, as the event loop sees it: it finishes in
    its first step, or it suspends once on
    [await asyncio.to_thread(client.chat.complete, ...)] and finishes when
    resumed with the answer. *)
Inductive coroutine : Type :=
| Return (r : pydict)
| Throw (e : exn)
| Complete (prompt : str) (k : str -> pydict).

Definition of_res (c : res pydict) : coroutine :=
  match c with
  | inl r => Return r
  | inr e => Throw e
  end.

Inductive agent_class : Type :=
| InternetSearchAgent
| SummarizerAgent
| EntityExtractorAgent
| TranslatorAgent
| FinalFormatterAgent.

Record Agent : Type := { name : str; class : agent_class }.

(** The elements that are there, in order. *)
Definition present {A : Type} (l : list (option A)) : list A :=
  flat_map (fun o => match o with Some a => [a] | None => [] end) l.

Fixpoint mapM {A B : Type} (f : A -> res B) (l : list A) : res (list B) :=
  match l with
  | [] => inl []
  | a :: l' => b <- f a ;; bs <- mapM f l' ;; ret (b :: bs)
  end.

Section Program.

Variable python : interpreter.

(** [repr] of a value, as an f-string renders a value that is not a [str]. *)
Variable repr : pyval -> str.

(** [json.dumps(v, ensure_ascii=False, indent=2)] *)
Variable json_dumps : pyval -> str.

(** [client.chat.complete], reduced to the prompt of its one user message. *)
Variable complete : Oracle.

(** A value inside an f-string. *)
Definition format (v : pyval) : str :=
  match v with
  | PStr s => s
  | _ => repr v
  end.

(** *** [InternetSearchAgent] *)

Definition process_results (self : Agent) (data : pyval) : res pydict :=
  items <- py_get data "items" (PList []) ;;
  items <- py_iter items ;;
  processed_results <-
    mapM (fun item =>
            title <- py_get item "title" PNone ;;
            link <- py_get item "link" PNone ;;
            snippet <- py_get item "snippet" PNone ;;
            ret (PDict [(lit "title", title); (lit "url", link); (lit "snippet", snippet)]))
         items ;;
  ret [(lit "agent", PStr (name self)); (lit "action", PStr "search_internet");
       (lit "results", PList processed_results)].

Definition fake_items (keywords : pyval) : list pyval :=
  [PDict [(lit "title", PStr ("Sample Article about " +++ format keywords));
          (lit "link", PStr "https://example.com/article1");
          (lit "snippet", PStr "This is a simulated snippet for article 1.")];
   PDict [(lit "title", PStr ("Another Resource on " +++ format keywords));
          (lit "link", PStr "https://example.com/article2");
          (lit "snippet", PStr "This is a simulated snippet for article 2.")]].

Definition InternetSearchAgent_run (self : Agent) (params : pyval) : coroutine :=
  of_res (keywords <- py_get params "keywords" PNone ;;
          max_results <- py_get params "max_results" (PInt 5) ;;
          items <- py_slice_to (fake_items keywords) max_results ;;
          process_results self (PDict [(lit "items", PList items)])).

(** *** [SummarizerAgent] *)

Definition SummarizerAgent_run (self : Agent) (params : pyval) : coroutine :=
  match py_get params "text" (PStr "") with
  | inr e => Throw e
  | inl text =>
      if negb (truthy text) then
        Return [(lit "agent", PStr (name self)); (lit "action", PStr "summarize");
                (lit "summary", PStr "")]
      else
        Complete
          ("Provide a concise summary for the following text:" +++ newline +++ newline
             +++ format text)
          (fun content =>
             let summary := strip content in
             [(lit "agent", PStr (name self)); (lit "action", PStr "summarize");
              (lit "summary", PStr summary)])
  end.

(** *** [EntityExtractorAgent] *)

Definition nonempty (s : str) : bool := match s with [] => false | _ :: _ => true end.

(** [[ent.strip() for ent in raw_entities.split(",") if ent.strip()]] on the
    stripped answer. *)
Definition extract_entities (content : str) : list str :=
  let raw_entities := strip content in
  map strip (filter (fun ent => nonempty (strip ent)) (split comma raw_entities)).

Definition EntityExtractorAgent_run (self : Agent) (params : pyval) : coroutine :=
  match py_get params "text" (PStr "") with
  | inr e => Throw e
  | inl text =>
      if negb (truthy text) then
        Return [(lit "agent", PStr (name self)); (lit "action", PStr "entity_extraction");
                (lit "entities", PList [])]
      else
        Complete
          ("Extract named entities (persons, locations, organizations) from the following text:"
             +++ newline +++ newline +++ format text +++ newline +++ newline
             +++ "Return only the entities separated by commas.")
          (fun content =>
             let entities := extract_entities content in
             [(lit "agent", PStr (name self)); (lit "action", PStr "entity_extraction");
              (lit "entities", PList (map PStr entities))])
  end.

(** *** [TranslatorAgent] *)

Definition TranslatorAgent_run (self : Agent) (params : pyval) : coroutine :=
  match (text <- py_get params "text" (PStr "") ;;
         target_language <- py_get params "target_language" (PStr "en") ;;
         ret (text, target_language)) with
  | inr e => Throw e
  | inl (text, target_language) =>
      if negb (truthy text) then
        Return [(lit "agent", PStr (name self)); (lit "action", PStr "translate");
                (lit "translated_text", PStr "")]
      else
        Complete
          ("Translate the following text into " +++ format target_language +++ ":"
             +++ newline +++ newline +++ format text)
          (fun content =>
             let translated_text := strip content in
             [(lit "agent", PStr (name self)); (lit "action", PStr "translate");
              (lit "translated_text", PStr translated_text)])
  end.

(** *** [FinalFormatterAgent] *)

Definition FinalFormatterAgent_run (self : Agent) (params : pyval) : coroutine :=
  match py_get params "aggregated" PNone with
  | inr e => Throw e
  | inl aggregated =>
      if negb (truthy aggregated) then
        Return [(lit "agent", PStr (name self)); (lit "action", PStr "final_format");
                (lit "formatted_text", PStr "No result to format.")]
      else
        Complete
          ("Transform the following aggregated JSON result into a clear, well-structured summary in natural language:"
             +++ newline +++ newline +++ json_dumps aggregated +++ newline +++ newline
             +++ "Provide only the final text summary without additional commentary.")
          (fun content =>
             let formatted_text := strip content in
             [(lit "agent", PStr (name self)); (lit "action", PStr "final_format");
              (lit "formatted_text", PStr formatted_text)])
  end.

(** [agent.run(params)]: the method of the agent's class. *)
Definition run (self : Agent) (params : pyval) : coroutine :=
  match class self with
  | InternetSearchAgent => InternetSearchAgent_run self params
  | SummarizerAgent => SummarizerAgent_run self params
  | EntityExtractorAgent => EntityExtractorAgent_run self params
  | TranslatorAgent => TranslatorAgent_run self params
  | FinalFormatterAgent => FinalFormatterAgent_run self params
  end.

(** [await coro], outside of any [gather]. *)
Definition await (c : coroutine) : M pydict :=
  fun w =>
    match c with
    | Return r => (inl r, w)
    | Throw e => (inr e, w)
    | Complete prompt k =>
        (match outcome (complete (length (calls w)) prompt) with
         | inl content => inl (k content)
         | inr e => inr e
         end, sent prompt w)
    end.

(** [await asyncio.to_thread(client.chat.complete, ...)] followed by
    [response.choices[0].message.content]. *)
Definition chat_complete (prompt : str) : M str :=
  fun w => (outcome (complete (length (calls w)) prompt), sent prompt w).

(** *** [asyncio.gather]

    Every coroutine is started, in the order given, before any answer is
    handled: a task runs until it finishes or has handed its call to the
    executor with [asyncio.to_thread].  [start] puts the prompt of a call
    handed over down in [calls], whose length tells the oracle which call it
    is; [gather] takes back the calls that are cancelled before a thread has
    taken them up.  [finished_at] is the time a task finishes: [0] in its
    first step, or after its call has waited for a thread and been
    answered. *)

Record settled : Type := { finished_at : nat; result : res pydict }.

Definition start (c : coroutine) (w : world) : settled * world :=
  match c with
  | Return r => ({| finished_at := 0; result := inl r |}, w)
  | Throw e => ({| finished_at := 0; result := inr e |}, w)
  | Complete prompt k =>
      let answer := complete (length (calls w)) prompt in
      ({| finished_at := S (queued answer + latency answer);
          result := match outcome answer with
                    | inl content => inl (k content)
                    | inr e => inr e
                    end |},
       sent prompt w)
  end.

Fixpoint start_all (cs : list coroutine) (w : world) : list settled * world :=
  match cs with
  | [] => ([], w)
  | c :: cs' =>
      let (s, w1) := start c w in
      let (ss, w2) := start_all cs' w1 in
      (s :: ss, w2)
  end.

(** The exception [gather] propagates: that of the task that fails first (of
    the earlier one in the argument list when two fail at the same time). *)
Fixpoint first_exception (ss : list settled) : option (nat * exn) :=
  match ss with
  | [] => None
  | s :: ss' =>
      match result s, first_exception ss' with
      | inr e, Some (t, e') =>
          if (finished_at s <=? t)%nat then Some (finished_at s, e) else Some (t, e')
      | inr e, None => Some (finished_at s, e)
      | inl _, later => later
      end
  end.

(** The values of the tasks, in the order of the argument list. *)
Fixpoint values (ss : list settled) : list pydict :=
  match ss with
  | [] => []
  | s :: ss' =>
      match result s with
      | inl r => r :: values ss'
      | inr _ => values ss'
      end
  end.

(** The prompts of the calls that a thread has taken up by the time [t], in
    the order in which they were handed over, [n] calls having been handed
    over before. *)
Fixpoint taken_up (cs : list coroutine) (n t : nat) : list str :=
  match cs with
  | [] => []
  | Complete prompt _ :: cs' =>
      if (queued (complete n prompt) <=? t)%nat then prompt :: taken_up cs' (S n) t
      else taken_up cs' (S n) t
  | _ :: cs' => taken_up cs' n t
  end.

(** [await asyncio.gather] of the coroutines [cs].  When no task raises, the
    results come in the order of [cs] and every call has been made.  When one
    does, [gather] raises the exception of the task that failed first, at the
    time [t] of that failure.  Nothing in the program catches it: it leaves
    [asyncio.run], which cancels the tasks still pending, and a call that no
    thread has taken up by then is never made. *)
Definition gather (cs : list coroutine) : M (list pydict) :=
  fun w =>
    let (ss, w') := start_all cs w in
    match first_exception ss with
    | Some (t, e) =>
        (inr e,
         {| calls := calls w ++ taken_up cs (length (calls w)) t; stdout := stdout w |})
    | None => (inl (values ss), w')
    end.

(** *** [AutonomousDispatcherAgent] *)

Record AutonomousDispatcherAgent : Type :=
  { agents : list (str * Agent);
    action_to_agent : list (str * option Agent) }.

(** [__init__] *)
Definition init (agent_list : list Agent) : AutonomousDispatcherAgent :=
  let by_name := fold_left (fun d agent => dict_set (name agent) agent d) agent_list [] in
  {| agents := by_name;
     action_to_agent :=
       [(lit "summarize", dict_get "summarizer" by_name);
        (lit "entity_extraction", dict_get "entity_extraction" by_name);
        (lit "translate", dict_get "translator" by_name);
        (lit "search_internet", dict_get "search_internet" by_name)] |}.

(** [self.action_to_agent.get(action)]: a list or a dict cannot be hashed, any
    other value that is not a key yields [None]. *)
Definition lookup (self : AutonomousDispatcherAgent) (action : pyval) : res (option Agent) :=
  match action with
  | PStr a =>
      inl (match dict_get a (action_to_agent self) with
           | Some agent => agent
           | None => None
           end)
  | PList _ | PDict _ => inr TypeError
  | _ => inl None
  end.

Definition empty_plan : pyval := PDict [(lit "tasks", PList [])].

(** The prompt of the planner; [list(self.action_to_agent.keys())] renders as
    the same text for every dispatcher. *)
Definition plan_prompt (user_request : str) : str :=
  "Analyze the following request and propose an action plan as a JSON structure "
    +++ "using the following strict format:" +++ newline +++ newline
    +++ "{" +++ newline +++ dq "  'tasks': [" +++ newline
    +++ dq "    { 'action': '<action_name>', 'params': { <parameters> } }," +++ newline
    +++ "    ..." +++ newline +++ "  ]" +++ newline +++ "}" +++ newline +++ newline
    +++ "Actions: ['summarize', 'entity_extraction', 'translate', 'search_internet']"
    +++ newline +++ newline
    +++ "Only return the JSON without any additional explanatory text."
    +++ newline +++ newline
    +++ "Request to analyze:" +++ newline
    +++ [quote] +++ user_request +++ [quote] +++ newline.

Definition parse_natural_language_request (self : AutonomousDispatcherAgent)
    (user_request : str) : M pyval :=
  content <- chat_complete (plan_prompt user_request) ;;
  let json_text := strip content in
  match json_loads python json_text with
  | inl plan => ret plan
  | inr JSONDecodeError =>
      print python [lit "[Dispatcher] JSON decoding error. Falling back to an empty plan."] ;;
      ret empty_plan
  | inr e => lift (inr e)
  end.

Definition no_agent_line (action : pyval) : str :=
  "[Dispatcher] No matching agent found for action '" +++ format action +++ "'.".

(** The [for task in ...] loop of [dispatch]; [tasks] collects the coroutines
    created so far. *)
Fixpoint dispatch_loop (self : AutonomousDispatcherAgent) (items : list pyval)
    (tasks : list coroutine) : M (list coroutine) :=
  match items with
  | [] => ret tasks
  | task :: items' =>
      action <- lift (py_get task "action" PNone) ;;
      params <- lift (py_get task "params" (PDict [])) ;;
      agent <- lift (lookup self action) ;;
      match agent with
      | Some agent => dispatch_loop self items' (tasks ++ [run agent params])
      | None => print python [no_agent_line action] ;; dispatch_loop self items' tasks
      end
  end.

(** What one turn of the loop adds to [tasks]: the coroutine of the agent
    found for the task, or nothing. *)
Definition resolve (self : AutonomousDispatcherAgent) (task : pyval) : res (option coroutine) :=
  action <- py_get task "action" PNone ;;
  params <- py_get task "params" (PDict []) ;;
  agent <- lookup self action ;;
  ret (option_map (fun agent => run agent params) agent).

(** [{result["action"]: result for result in results_list if "action" in result}];
    the keys are strings, as every [run] above stores one under ["action"]. *)
Definition add_result (aggregated : pydict) (result : pydict) : pydict :=
  match dict_get "action" result with
  | Some (PStr action) => dict_set action (PDict result) aggregated
  | _ => aggregated
  end.

Definition aggregate (results_list : list pydict) : pydict :=
  fold_left add_result results_list [].

(** What [for task in plan.get("tasks", [])] iterates over. *)
Definition plan_items (plan : pyval) : res (list pyval) :=
  tasks <- py_get plan "tasks" (PList []) ;; py_iter tasks.

(** [dispatch] once the plan is there. *)
Definition execute (self : AutonomousDispatcherAgent) (plan : pyval) : M pydict :=
  items <- lift (plan_items plan) ;;
  tasks <- dispatch_loop self items [] ;;
  results_list <- gather tasks ;;
  ret (aggregate results_list).

Definition dispatch (self : AutonomousDispatcherAgent) (user_request : str) : M pydict :=
  plan <- parse_natural_language_request self user_request ;;
  execute self plan.

(** [resolved self c]: [c] is the [run] of an agent that the registry holds
    under some action name. *)
Definition resolved (self : AutonomousDispatcherAgent) (c : coroutine) : Prop :=
  exists (a : str) (agent : Agent) (params : pyval),
    dict_get a (action_to_agent self) = Some (Some agent)
    /\ c = run agent params.

End Program.

(** The agents [main] creates and its dispatcher. *)
Definition summarizer : Agent := {| name := "summarizer"; class := SummarizerAgent |}.
Definition extractor : Agent := {| name := "entity_extraction"; class := EntityExtractorAgent |}.
Definition translator : Agent := {| name := "translator"; class := TranslatorAgent |}.
Definition search_internet : Agent := {| name := "search_internet"; class := InternetSearchAgent |}.
Definition final_formatter : Agent := {| name := "final_formatter"; class := FinalFormatterAgent |}.

Definition dispatcher : AutonomousDispatcherAgent :=
  init [summarizer; extractor; translator; search_internet].

Definition fresh : world := {| calls := []; stdout := [] |}.

(** ** [main]

    The three requests of the example, with their typographic quotes, and the
    loop that dispatches each one and formats its aggregate.  [request_line]
    and [final_line] are what the two [print]s of two arguments write when
    they succeed. *)

Definition left_quote : char := 8216%N.
Definition right_quote : char := 8217%N.

Definition user_request1 : str :=
  "I want you to summarize the following text and extract its named entities: "
    +++ [left_quote]
    +++ "Steve and Mary are going to the theater tomorrow. The new Marvel is playing in the morning. "
    +++ "They have made a reservation for the 10am session, and for food and drinks for a perfect shared time of happiness."
    +++ [right_quote].

Definition user_request2 : str :=
  "Translate this text into English: " +++ [left_quote] +++ "Bonjour tout le monde!"
    +++ [right_quote].

Definition user_request3 : str := "Search internet for openai chatgpt documentation".

Definition requests : list str := [user_request1; user_request2; user_request3].

(** [str(n)] for a natural number. *)
Definition decimal (n : nat) : str := lit (NilZero.string_of_uint (Nat.to_uint n)).

Section MainProgram.

Variable python : interpreter.
Variable repr : pyval -> str.
Variable json_dumps : pyval -> str.
Variable complete : Oracle.

Definition header_line (index : nat) : str :=
  newline +++ "--- Processing User Request " +++ decimal (index + 1) +++ " ---".

Definition request_line (request : str) : str :=
  "User request:" +++ newline +++ " " +++ request.

Definition final_line (formatted_text : pyval) : str :=
  "Final formatted text:" +++ newline +++ " " +++ format repr formatted_text.

(** [for index, request in enumerate(requests)], from [index] on. *)
Fixpoint main_loop (requests : list str) (index : nat) : M unit :=
  match requests with
  | [] => ret tt
  | request :: rest =>
      print python [header_line index] ;;
      print python ["User request:" +++ newline; request] ;;
      aggregated_result <- dispatch python repr json_dumps complete dispatcher request ;;
      final_text_result <-
        await complete
          (run repr json_dumps final_formatter
             (PDict [(lit "aggregated", PDict aggregated_result)])) ;;
      print python
        ["Final formatted text:" +++ newline;
         format repr (match dict_get "formatted_text" final_text_result with
                      | Some v => v
                      | None => PNone
                      end)] ;;
      main_loop rest (S index)
  end.

Definition main : M unit := main_loop requests 0.

End MainProgram.

(** ** Notions the properties are stated with *)

(** The entity list as the specification words it: the answer split on
    commas, every fragment stripped, the empty ones dropped, the order kept. *)
Definition entities_of_response (response : str) : list str :=
  filter nonempty (map strip (split comma response)).

(** A service that answers a prompt the same way whenever it is asked. *)
Definition deterministic (complete : Oracle) : Prop :=
  forall (n m : nat) (prompt : str), outcome (complete n prompt) = outcome (complete m prompt).

(** The action a provider class writes into its results. *)
Definition action_of (c : agent_class) : str :=
  match c with
  | InternetSearchAgent => "search_internet"
  | SummarizerAgent => "summarize"
  | EntityExtractorAgent => "entity_extraction"
  | TranslatorAgent => "translate"
  | FinalFormatterAgent => "final_format"
  end.

(** The registry binds every action to a provider of the class that performs
    it, as the one [main] builds does. *)
Definition well_wired (self : AutonomousDispatcherAgent) : bool :=
  forallb (fun entry =>
             match snd entry with
             | Some agent => str_eqb (action_of (class agent)) (fst entry)
             | None => true
             end)
          (action_to_agent self).

Definition registered_actions : list str :=
  [lit "summarize"; lit "entity_extraction"; lit "translate"; lit "search_internet"].

Definition has_action (a : str) (r : pydict) : bool :=
  match dict_get "action" r with
  | Some (PStr a') => str_eqb a a'
  | _ => false
  end.

(** Among the tasks that returned a result for action [a], the result of the
    one that finished last; [best] is the latest seen so far. *)
Fixpoint completed_last (a : str) (ss : list settled) (best : option (nat * pydict))
    : option pydict :=
  match ss with
  | [] => option_map snd best
  | s :: ss' =>
      match result s with
      | inl r =>
          if has_action a r then
            match best with
            | Some (t, _) =>
                if (t <=? finished_at s)%nat
                then completed_last a ss' (Some (finished_at s, r))
                else completed_last a ss' best
            | None => completed_last a ss' (Some (finished_at s, r))
            end
          else completed_last a ss' best
      | inr _ => completed_last a ss' best
      end
  end.

(** [produces c r]: the coroutine [c] can finish with the result [r]. *)
Inductive produces : coroutine -> pydict -> Prop :=
| produces_return (r : pydict) : produces (Return r) r
| produces_complete (prompt : str) (k : str -> pydict) (content : str) :
    produces (Complete prompt k) (k content).

(** Two worlds in which the service has been called the same way. *)
Definition same_calls (w w' : world) : Prop := calls w = calls w'.

(** The prompts of the coroutines that suspend on a call, in order. *)
Fixpoint prompts (cs : list coroutine) : list str :=
  match cs with
  | [] => []
  | Complete prompt _ :: cs' => prompt :: prompts cs'
  | _ :: cs' => prompts cs'
  end.

(** What [process_results] makes of one item that is a dict. *)
Definition processed (item : pyval) : pyval :=
  let field (key : str) :=
    match item with
    | PDict d => match dict_get key d with Some v => v | None => PNone end
    | _ => PNone
    end in
  PDict [(lit "title", field "title"); (lit "url", field "link");
         (lit "snippet", field "snippet")].

Definition is_dict (v : pyval) : bool :=
  match v with
  | PDict _ => true
  | _ => false
  end.


(** The action names of the registry with the agent name each is bound to. *)
Definition bindings : list (str * str) :=
  [(lit "summarize", lit "summarizer");
   (lit "entity_extraction", lit "entity_extraction");
   (lit "translate", lit "translator");
   (lit "search_internet", lit "search_internet")].

(** An entity name as the extractor returns them: not empty, without blanks
    at its ends, without a comma. *)
Definition clean (e : str) : Prop := e <> [] /\ strip e = e /\ ~ In comma e.

(** The field in which a provider class returns the text of the service. *)
Definition text_field (c : agent_class) : option str :=
  match c with
  | SummarizerAgent => Some (lit "summary")
  | TranslatorAgent => Some (lit "translated_text")
  | FinalFormatterAgent => Some (lit "formatted_text")
  | _ => None
  end.

(** The characters a JSON value can begin with, as the decoder tells them
    apart. *)
Definition begins_value (c : char) : bool :=
  ((c =? 34) || (c =? 123) || (c =? 91) || (c =? 110) || (c =? 116) || (c =? 102)
   || (c =? 78) || (c =? 73) || (c =? 45))%N || isdigit c.

Definition blank (s : str) : bool := forallb isspace s.

(** What [main] prints for requests whose plans are all empty because the
    planner's answer could not be decoded, the first request being number
    [index + 1]. *)
Fixpoint fallback_output (requests : list str) (index : nat) : list str :=
  match requests with
  | [] => []
  | request :: rest =>
      [header_line index; request_line request;
       lit "[Dispatcher] JSON decoding error. Falling back to an empty plan.";
       "Final formatted text:" +++ newline +++ " " +++ "No result to format."]
        ++ fallback_output rest (S index)
  end.

(** The lines that the loop of [dispatch] prints for the tasks of [items]
    without a provider are lines that [sys.stdout] can encode. *)
Definition skips_printable (python : interpreter) (repr : pyval -> str)
    (self : AutonomousDispatcherAgent) (items : list pyval) : Prop :=
  Forall (fun task => forall action,
            py_get task "action" PNone = inl action ->
            lookup self action = inl None ->
            printable python (no_agent_line repr action) = true) items.

(** [subsequence l1 l2]: [l1] is [l2] with some elements left out. *)
Inductive subsequence {A : Type} : list A -> list A -> Prop :=
| subsequence_nil : subsequence [] []
| subsequence_skip (x : A) (l1 l2 : list A) :
    subsequence l1 l2 -> subsequence l1 (x :: l2)
| subsequence_keep (x : A) (l1 l2 : list A) :
    subsequence l1 l2 -> subsequence (x :: l1) (x :: l2).

(** The ["results"] list of the result a coroutine returns at once. *)
Definition returned_results (c : coroutine) : option (list pyval) :=
  match c with
  | Return r =>
      match dict_get "results" r with
      | Some (PList results) => Some results
      | _ => None
      end
  | _ => None
  end.

(** ** Oracles and inputs of the examples *)

(** An interpreter for the examples: nine hundred levels left to the decoder,
    of which a decode error takes three and a constant one, as in CPython
    3.11; the limit of 4300 digits that is the default; and a terminal in
    UTF-8, which encodes every character but the surrogates. *)
Definition cpython : interpreter :=
  {| error_levels := 3;
     constant_levels := 1;
     headroom := 897;
     int_max_str_digits := 4300;
     stdout_encodes := fun c => negb ((55296 <=? c) && (c <=? 57343))%N |}.

(** Renders every value that is not a string as a question mark. *)
Definition plain_repr (v : pyval) : str := "?".

(** Answers every prompt with the same text, at once. *)
Definition constant_oracle (text : str) : Oracle :=
  fun _ _ => {| outcome := inl text; queued := 0; latency := 0 |}.

(** Answers taken up at once and given [after] later. *)
Definition says (text : str) (after : nat) : completion :=
  {| outcome := inl text; queued := 0; latency := after |}.

Definition fails (after : nat) : completion :=
  {| outcome := inr (ClientError "service unavailable"); queued := 0; latency := after |}.

(** A computation returns, it does not raise. *)
Definition returns {A : Type} (c : res A) : bool :=
  match c with
  | inl _ => true
  | inr _ => false
  end.

(** The same answer, for a call that waits [wait] for a thread. *)
Definition waiting (wait : nat) (answer : completion) : completion :=
  {| outcome := outcome answer; queued := wait; latency := latency answer |}.

(** Answers the calls in turn from a script, whatever the prompts; fails when
    the script is used up. *)
Definition scripted (answers : list completion) : Oracle :=
  fun n _ => nth n answers (fails 0).

Definition task (action : str) (params : pydict) : pyval :=
  PDict [(lit "action", PStr action); (lit "params", PDict params)].

Definition summarize_a : pyval := task "summarize" [(lit "text", PStr "a")].
Definition summarize_b : pyval := task "summarize" [(lit "text", PStr "b")].
Definition translate_c : pyval := task "translate" [(lit "text", PStr "c")].
Definition paint : pyval := PDict [(lit "action", PStr "paint")].

Definition plan_of (tasks : list pyval) : pyval := PDict [(lit "tasks", PList tasks)].

(** The planner answers with two summaries, which are answered after [t1] and
    [t2]. *)
Definition two_summaries_after (t1 t2 : nat) : Oracle :=
  scripted
    [says (dq "{'tasks': [{'action': 'summarize', 'params': {'text': 'a'}}, {'action': 'summarize', 'params': {'text': 'b'}}]}") 0;
     says "A" t1;
     says "B" t2].

(** The first summary takes longer than the second. *)
Definition two_summaries : Oracle := two_summaries_after 5 1.

(** A summary and a translation; the translation call fails. *)
Definition translation_fails : Oracle :=
  scripted
    [says (dq "{'tasks': [{'action': 'summarize', 'params': {'text': 'a'}}, {'action': 'translate', 'params': {'text': 'c'}}]}") 0;
     says "A" 1;
     fails 3].


(** A registry in which the name of the summarizer is borne by a formatter. *)
Definition miswired : AutonomousDispatcherAgent :=
  init [{| name := "summarizer"; class := FinalFormatterAgent |}].

Definition summary_of (agent_name text : str) : pydict :=
  [(lit "agent", PStr agent_name); (lit "action", PStr "summarize"); (lit "summary", PStr text)].

Definition translation_of (agent_name text : str) : pydict :=
  [(lit "agent", PStr agent_name); (lit "action", PStr "translate");
   (lit "translated_text", PStr text)].

(** * Properties *)

(** ** The decoder never runs out of fuel *)

Lemma skip_ws_le (s : str) : length (skip_ws s) <= length s.
Proof.
  induction s as [|c t IH]; simpl; [lia|].
  destruct (json_space c); simpl; lia.
Qed.

Lemma scanstring_lt (n : nat) :
  forall (s acc x r : str),
    length s <= n -> scanstring s acc = Some (x, r) -> length r < length s.
Proof.
  induction n as [|n IH]; intros s acc x r Hn.
  - destruct s; [discriminate | simpl in Hn; lia].
  - destruct s as [|c t]; [discriminate|]. simpl in Hn.
    cbn [scanstring].
    destruct (c =? 34)%N; [intros [= <- <-]; simpl; lia|].
    destruct (c =? 92)%N.
    + destruct t as [|e t1]; [discriminate|].
      destruct (e =? 117)%N.
      * destruct t1 as [|h1 [|h2 [|h3 [|h4 t2]]]]; try discriminate.
        destruct (hex4 h1 h2 h3 h4) as [u|]; [|discriminate].
        assert (forall a, scanstring t2 a = Some (x, r) ->
                          length r < length (c :: e :: h1 :: h2 :: h3 :: h4 :: t2)) as Hplain.
        { intros a H. apply IH in H; simpl in *; lia. }
        destruct (high_surrogate u); [|apply Hplain].
        destruct t2 as [|b [|v [|g1 [|g2 [|g3 [|g4 t3]]]]]]; try apply Hplain.
        destruct (if ((b =? 92) && (v =? 117))%N then hex4 g1 g2 g3 g4 else None) as [u2|];
          [|apply Hplain].
        destruct (low_surrogate u2); [|apply Hplain].
        intros H. apply IH in H; simpl in *; lia.
      * destruct (unescape e); [|discriminate].
        intros H. apply IH in H; simpl in *; lia.
    + destruct (c <? 32)%N; [discriminate|].
      intros H. apply IH in H; simpl in *; lia.
Qed.

Lemma digits_le (s : str) :
  forall (acc : N) (count : nat) (v : N) (k : nat) (r : str),
    digits s acc count = (v, k, r) -> length r <= length s.
Proof.
  induction s as [|c t IH]; intros acc count v k r; simpl.
  - intros [= <- <- <-]. simpl. lia.
  - destruct (isdigit c).
    + intros H. apply IH in H. lia.
    + intros [= <- <- <-]. simpl. lia.
Qed.

Lemma fraction_le (int : N) (s : str) (mant : N) (nfrac : nat) (r : str) :
  fraction int s = (mant, nfrac, r) -> length r <= length s.
Proof.
  unfold fraction. destruct s as [|dot [|d t]]; try (intros [= <- <- <-]; simpl; lia).
  destruct ((dot =? 46)%N && isdigit d); [|intros [= <- <- <-]; simpl; lia].
  intros H. apply digits_le in H. simpl in *. lia.
Qed.

Lemma exponent_digits_le (negative : bool) (s : str) (x : Z) (r : str) :
  exponent_digits negative s = Some (x, r) -> length r <= length s.
Proof.
  unfold exponent_digits. destruct (digits s 0%N 0) as [[e k] r0] eqn:E.
  apply digits_le in E. destruct k; [discriminate|]. intros [= _ <-]. exact E.
Qed.

Lemma exponent_le (s : str) (x : Z) (r : str) :
  exponent s = Some (x, r) -> length r <= length s.
Proof.
  unfold exponent. destruct s as [|e [|sign t]]; try discriminate.
  destruct ((e =? 101) || (e =? 69))%N; [|discriminate].
  destruct (sign =? 45)%N; [|destruct (sign =? 43)%N];
    intros H; apply exponent_digits_le in H; simpl in *; lia.
Qed.

Lemma match_fraction_le (python : interpreter) (neg : bool) (int : N) (ndigits : nat)
    (s : str) (v : pyval) (r : str) :
  match_fraction python neg int ndigits s = Ok v r -> length r <= length s.
Proof.
  unfold match_fraction.
  destruct (fraction int s) as [[mant nfrac] s1] eqn:Ef. apply fraction_le in Ef.
  destruct (exponent s1) as [[x r']|] eqn:Ee.
  - apply exponent_le in Ee. intros [= _ <-]. lia.
  - destruct nfrac; [destruct (too_many_digits python ndigits); [discriminate|]|];
      intros [= _ <-]; exact Ef.
Qed.

Lemma match_integer_lt (python : interpreter) (neg : bool) (s : str) (v : pyval) (r : str) :
  match_integer python neg s = Ok v r -> length r < length s.
Proof.
  unfold match_integer. destruct s as [|c t]; [discriminate|].
  destruct (c =? 48)%N.
  - intros E. apply match_fraction_le in E. simpl. lia.
  - destruct (isdigit c) eqn:Ed; [|discriminate].
    simpl. rewrite Ed.
    destruct (digits t _ 1) as [[int k] r0] eqn:E. apply digits_le in E.
    intros E'. apply match_fraction_le in E'. lia.
Qed.

Lemma match_number_lt (python : interpreter) (s : str) (v : pyval) (r : str) :
  match_number python s = Ok v r -> length r < length s.
Proof.
  unfold match_number. destruct s as [|c t]; [discriminate|].
  destruct (c =? 45)%N; intros H; apply match_integer_lt in H; simpl in *; lia.
Qed.

Lemma after_prefix_length (p s r : str) :
  after_prefix p s = Some r -> length s = length p + length r.
Proof.
  revert s. induction p as [|a p IH]; intros [|b s]; simpl; try discriminate.
  - intros [= <-]. reflexivity.
  - intros [= <-]. reflexivity.
  - destruct (N.eqb a b); [|discriminate]. intros H. apply IH in H. lia.
Qed.

Lemma keyword_lt (python : interpreter) (word : string) (v v' : pyval) (s r : str) :
  0 < length (lit word) -> keyword python word v s = Ok v' r -> length r < length s.
Proof.
  intros Hword. unfold keyword.
  destruct (after_prefix word s) as [r'|] eqn:E.
  - apply after_prefix_length in E. intros [= _ <-]. lia.
  - apply match_number_lt.
Qed.

Lemma malformed_ok (python : interpreter) (depth : nat) (v : pyval) (r : str) :
  malformed python depth <> Ok v r.
Proof. unfold malformed. destruct (_ <=? _)%nat; discriminate. Qed.

Lemma malformed_fuel (python : interpreter) (depth : nat) :
  malformed python depth <> Fuel.
Proof. unfold malformed. destruct (_ <=? _)%nat; discriminate. Qed.

Lemma malformed_raise (python : interpreter) (depth : nat) (e : exn) :
  malformed python depth = Raise e -> e = RecursionError.
Proof.
  unfold malformed. destruct (_ <=? _)%nat; [discriminate|]. intros [= <-]. reflexivity.
Qed.

Lemma constant_lt (python : interpreter) (word : string) (v v' : pyval) (depth : nat)
    (s r : str) :
  0 < length (lit word) -> constant python word v depth s = Ok v' r -> length r < length s.
Proof.
  intros Hword. unfold constant.
  destruct (after_prefix word s) as [r'|] eqn:E.
  - apply after_prefix_length in E.
    destruct (_ <=? _)%nat; [|discriminate]. intros [= _ <-]. lia.
  - apply match_number_lt.
Qed.

Ltac absurd_scan :=
  first [discriminate | let H := fresh in intros H; exfalso; eapply malformed_ok; exact H].

Ltac no_fuel := first [discriminate | apply malformed_fuel].

Section Fuel.

Variable python : interpreter.

(** Every scanner consumes at least one character when it succeeds. *)
Lemma scan_progress (fuel : nat) :
  (forall depth s v r, scan_once python fuel depth s = Ok v r -> length r < length s)
  /\ (forall depth s acc v r,
        array_items python fuel depth s acc = Ok v r -> length r < length s)
  /\ (forall depth s acc v r,
        object_items python fuel depth s acc = Ok v r -> length r < length s).
Proof.
  induction fuel as [|fuel (IHscan & IHarray & IHobject)];
    [repeat split; absurd_scan|].
  split; [|split].
  - intros depth s v r. cbn [scan_once].
    destruct s as [|c t]; [absurd_scan|].
    destruct (c =? 34)%N.
    { destruct (scanstring t []) as [[x r']|] eqn:E; [|absurd_scan].
      apply (scanstring_lt _ _ _ _ _ (le_n _)) in E. intros [= _ <-]. simpl. lia. }
    destruct (c =? 123)%N.
    { destruct depth as [|depth]; [absurd_scan|].
      pose proof (skip_ws_le t) as Hws.
      destruct (skip_ws t) as [|c' r']; [absurd_scan|].
      destruct (c' =? 125)%N.
      - intros [= _ <-]. simpl in *. lia.
      - intros H. apply IHobject in H. simpl in *. lia. }
    destruct (c =? 91)%N.
    { destruct depth as [|depth]; [absurd_scan|].
      pose proof (skip_ws_le t) as Hws.
      destruct (skip_ws t) as [|c' r']; [absurd_scan|].
      destruct (c' =? 93)%N.
      - intros [= _ <-]. simpl in *. lia.
      - intros H. apply IHarray in H. simpl in *. lia. }
    repeat match goal with
           | |- context [if ?b then keyword _ ?word _ _ else _] =>
               destruct b; [apply keyword_lt; simpl; lia|]
           | |- context [if ?b then constant _ ?word _ _ _ else _] =>
               destruct b; [apply constant_lt; simpl; lia|]
           end.
    apply match_number_lt.
  - intros depth s acc v r. cbn [array_items].
    destruct (scan_once python fuel depth s) as [v0 r0| | |] eqn:E; try absurd_scan.
    apply IHscan in E.
    pose proof (skip_ws_le r0) as Hws.
    destruct (skip_ws r0) as [|c r']; [absurd_scan|].
    destruct (c =? 93)%N; [intros [= _ <-]; simpl in *; lia|].
    destruct (c =? 44)%N; [|absurd_scan].
    intros H. apply IHarray in H.
    pose proof (skip_ws_le r'). simpl in *. lia.
  - intros depth s acc v r. cbn [object_items].
    destruct s as [|q t]; [absurd_scan|].
    destruct (q =? 34)%N; [|absurd_scan].
    destruct (scanstring t []) as [[key r0]|] eqn:Ekey; [|absurd_scan].
    apply (scanstring_lt _ _ _ _ _ (le_n _)) in Ekey.
    pose proof (skip_ws_le r0) as Hws0.
    destruct (skip_ws r0) as [|colon r1]; [absurd_scan|].
    destruct (colon =? 58)%N; [|absurd_scan].
    destruct (scan_once python fuel depth (skip_ws r1)) as [v0 r2| | |] eqn:E;
      try absurd_scan.
    apply IHscan in E.
    pose proof (skip_ws_le r1) as Hws1.
    pose proof (skip_ws_le r2) as Hws2.
    destruct (skip_ws r2) as [|c r3]; [absurd_scan|].
    destruct (c =? 125)%N; [intros [= _ <-]; simpl in *; lia|].
    destruct (c =? 44)%N; [|absurd_scan].
    intros H. apply IHobject in H.
    pose proof (skip_ws_le r3). simpl in *. lia.
Qed.

(** Twice the length of the text, and a little, is fuel enough. *)
Lemma scan_fuel (fuel : nat) :
  (forall depth s, 2 * length s < fuel -> scan_once python fuel depth s <> Fuel)
  /\ (forall depth s acc,
        2 * length s + 1 < fuel -> array_items python fuel depth s acc <> Fuel)
  /\ (forall depth s acc,
        2 * length s + 1 < fuel -> object_items python fuel depth s acc <> Fuel).
Proof.
  induction fuel as [|fuel (IHscan & IHarray & IHobject)];
    [repeat split; intros; lia|].
  destruct (scan_progress fuel) as (Pscan & Parray & Pobject).
  split; [|split].
  - intros depth s Hfuel. cbn [scan_once].
    destruct s as [|c t]; [no_fuel|].
    destruct (c =? 34)%N.
    { destruct (scanstring t []) as [[x r']|]; no_fuel. }
    destruct (c =? 123)%N.
    { destruct depth as [|depth]; [no_fuel|].
      pose proof (skip_ws_le t) as Hws.
      destruct (skip_ws t) as [|c' r']; [no_fuel|].
      destruct (c' =? 125)%N; [no_fuel|].
      apply IHobject. simpl in *. lia. }
    destruct (c =? 91)%N.
    { destruct depth as [|depth]; [no_fuel|].
      pose proof (skip_ws_le t) as Hws.
      destruct (skip_ws t) as [|c' r']; [no_fuel|].
      destruct (c' =? 93)%N; [no_fuel|].
      apply IHarray. simpl in *. lia. }
    assert (forall neg int n s0, match_fraction python neg int n s0 <> Fuel) as Hfrac.
    { intros neg int n s0. unfold match_fraction.
      destruct (fraction int s0) as [[mant nfrac] s1].
      destruct (exponent s1) as [[x r]|]; [no_fuel|].
      destruct nfrac; [destruct (too_many_digits python n)|]; no_fuel. }
    assert (forall neg s0, match_integer python neg s0 <> Fuel) as Hint.
    { intros neg s0. unfold match_integer. destruct s0 as [|c0 t0]; [no_fuel|].
      destruct (c0 =? 48)%N; [apply Hfrac|].
      destruct (isdigit c0); [|no_fuel].
      destruct (digits (c0 :: t0) 0%N 0) as [[int k] r0]. apply Hfrac. }
    assert (forall s0, match_number python s0 <> Fuel) as Hnum.
    { intros s0. unfold match_number. destruct s0 as [|c0 t0]; [no_fuel|].
      destruct (c0 =? 45)%N; apply Hint. }
    assert (forall word v s0, keyword python word v s0 <> Fuel) as Hkey.
    { intros word v s0. unfold keyword.
      destruct (after_prefix word s0); [no_fuel | apply Hnum]. }
    assert (forall word v depth s0, constant python word v depth s0 <> Fuel) as Hconst.
    { intros word v depth0 s0. unfold constant.
      destruct (after_prefix word s0); [destruct (_ <=? _)%nat; no_fuel | apply Hnum]. }
    repeat match goal with
           | |- context [if ?b then keyword _ ?word _ _ else _] =>
               destruct b; [apply Hkey|]
           | |- context [if ?b then constant _ ?word _ _ _ else _] =>
               destruct b; [apply Hconst|]
           end.
    apply Hnum.
  - intros depth s acc Hfuel. cbn [array_items].
    pose proof (IHscan depth s) as Hs.
    destruct (scan_once python fuel depth s) as [v0 r0| | |] eqn:E;
      [|no_fuel|no_fuel|apply Hs; lia].
    apply Pscan in E.
    pose proof (skip_ws_le r0) as Hws.
    destruct (skip_ws r0) as [|c r']; [no_fuel|].
    destruct (c =? 93)%N; [no_fuel|].
    destruct (c =? 44)%N; [|no_fuel].
    apply IHarray. pose proof (skip_ws_le r'). simpl in *. lia.
  - intros depth s acc Hfuel. cbn [object_items].
    destruct s as [|q t]; [no_fuel|].
    destruct (q =? 34)%N; [|no_fuel].
    destruct (scanstring t []) as [[key r0]|] eqn:Ekey; [|no_fuel].
    apply (scanstring_lt _ _ _ _ _ (le_n _)) in Ekey.
    pose proof (skip_ws_le r0) as Hws0.
    destruct (skip_ws r0) as [|colon r1]; [no_fuel|].
    destruct (colon =? 58)%N; [|no_fuel].
    pose proof (skip_ws_le r1) as Hws1.
    pose proof (IHscan depth (skip_ws r1)) as Hs.
    destruct (scan_once python fuel depth (skip_ws r1)) as [v0 r2| | |] eqn:E;
      [|no_fuel|no_fuel|apply Hs; simpl in *; lia].
    apply Pscan in E.
    pose proof (skip_ws_le r2) as Hws2.
    destruct (skip_ws r2) as [|c r3]; [no_fuel|].
    destruct (c =? 125)%N; [no_fuel|].
    destruct (c =? 44)%N; [|no_fuel].
    apply IHobject. pose proof (skip_ws_le r3). simpl in *. lia.
Qed.

(** [json_loads] gives its scanner fuel enough: a decode error is never an
    exhausted scanner. *)
Lemma json_loads_fuel (s : str) :
  scan_once python (2 * length s + 2) (recursion_remaining python) (skip_ws s) <> Fuel.
Proof.
  apply (proj1 (scan_fuel (2 * length s + 2))).
  pose proof (skip_ws_le s). lia.
Qed.

End Fuel.

(** ** Dictionaries *)

Lemma str_eqb_eq (a b : str) : str_eqb a b = true <-> a = b.
Proof.
  revert b. induction a as [|x a IH]; intros [|y b]; simpl; split; intros H;
    try reflexivity; try discriminate.
  - apply andb_true_iff in H as [Hx Hab].
    apply N.eqb_eq in Hx. apply IH in Hab. congruence.
  - injection H as -> ->. rewrite N.eqb_refl. apply IH. reflexivity.
Qed.

Lemma str_eqb_refl (a : str) : str_eqb a a = true.
Proof. apply str_eqb_eq. reflexivity. Qed.

Lemma str_eqb_neq (a b : str) : str_eqb a b = false <-> a <> b.
Proof.
  rewrite <- str_eqb_eq. destruct (str_eqb a b); split; congruence.
Qed.

Lemma dict_get_set {V : Type} (a k : str) (v : V) (d : list (str * V)) :
  dict_get a (dict_set k v d) = if str_eqb a k then Some v else dict_get a d.
Proof.
  induction d as [|[k' v'] d IH]; simpl.
  - reflexivity.
  - destruct (str_eqb k k') eqn:Ek; simpl.
    + apply str_eqb_eq in Ek as ->.
      destruct (str_eqb a k'); reflexivity.
    + rewrite IH.
      destruct (str_eqb a k') eqn:Ea; [|reflexivity].
      apply str_eqb_eq in Ea as ->.
      rewrite (proj2 (str_eqb_neq k' k)); [reflexivity|].
      apply str_eqb_neq in Ek. congruence.
Qed.

Lemma keys_dict_set {V : Type} (k : str) (v : V) (d : list (str * V)) :
  keys (dict_set k v d) = if existsb (str_eqb k) (keys d) then keys d else keys d ++ [k].
Proof.
  unfold keys.
  induction d as [|[k' v'] d IH]; simpl; [reflexivity|].
  destruct (str_eqb k k'); simpl; [reflexivity|].
  rewrite IH.
  destruct (existsb (str_eqb k) (map fst d)); reflexivity.
Qed.

Lemma dict_set_NoDup {V : Type} (k : str) (v : V) (d : list (str * V)) :
  NoDup (keys d) -> NoDup (keys (dict_set k v d)).
Proof.
  intros Hd. rewrite keys_dict_set.
  destruct (existsb (str_eqb k) (keys d)) eqn:E; [exact Hd|].
  apply NoDup_app; [exact Hd | repeat constructor; intros [] |].
  intros x Hx [-> | []].
  assert (existsb (str_eqb x) (keys d) = true) as Hex; [|congruence].
  apply existsb_exists. exists x. split; [exact Hx | apply str_eqb_refl].
Qed.

Lemma In_dict_set {V : Type} (k : str) (v : V) (d : list (str * V)) (entry : str * V) :
  In entry (dict_set k v d) -> entry = (k, v) \/ In entry d.
Proof.
  induction d as [|[k' v'] d IH]; simpl.
  - intros [<- | []]. left. reflexivity.
  - destruct (str_eqb k k') eqn:Ek; simpl.
    + apply str_eqb_eq in Ek as ->. intros [<- | H]; auto.
    + intros [<- | H]; auto. destruct (IH H); auto.
Qed.

Lemma dict_get_In {V : Type} (k : str) (v : V) (d : list (str * V)) :
  dict_get k d = Some v -> In (k, v) d.
Proof.
  induction d as [|[k' v'] d IH]; simpl; [discriminate|].
  destruct (str_eqb k k') eqn:Ek.
  - apply str_eqb_eq in Ek as ->. intros [= ->]. left. reflexivity.
  - intros H. right. apply IH, H.
Qed.

(** A dict with distinct keys holds as many entries under [k] as [dict_get]
    finds: one or none. *)
Lemma entries_under_key {V : Type} (k : str) (d : list (str * V)) :
  NoDup (keys d) ->
  length (filter (fun entry => str_eqb k (fst entry)) d)
  = match dict_get k d with Some _ => 1 | None => 0 end.
Proof.
  induction d as [|[k' v'] d IH]; simpl; [reflexivity|].
  intros Hd. inversion Hd as [|? ? Hnotin Hd']; subst.
  destruct (str_eqb k k') eqn:Ek; simpl.
  - apply str_eqb_eq in Ek as ->.
    rewrite IH by exact Hd'.
    destruct (dict_get k' d) as [v|] eqn:Eg; [|reflexivity].
    exfalso. apply Hnotin. apply dict_get_In in Eg.
    apply (in_map fst) in Eg. exact Eg.
  - apply IH, Hd'.
Qed.

(** ** Aggregation *)

Lemma aggregate_snoc (rs : list pydict) (r : pydict) :
  aggregate (rs ++ [r]) = add_result (aggregate rs) r.
Proof. unfold aggregate. rewrite fold_left_app. reflexivity. Qed.

Lemma dict_get_add_result (a : str) (agg r : pydict) :
  dict_get a (add_result agg r)
  = if has_action a r then Some (PDict r) else dict_get a agg.
Proof.
  unfold add_result, has_action.
  destruct (dict_get "action" r) as [[]|]; try reflexivity.
  apply dict_get_set.
Qed.

(** The entry of an action is the last result, in list order, that carries
    it. *)
Lemma aggregate_keeps_last (a : str) (pre post : list pydict) (r : pydict) :
  has_action a r = true ->
  forallb (fun r' => negb (has_action a r')) post = true ->
  dict_get a (aggregate (pre ++ r :: post)) = Some (PDict r).
Proof.
  intros Hr. induction post as [|x post IH] using rev_ind; intros Hpost.
  - rewrite aggregate_snoc, dict_get_add_result, Hr. reflexivity.
  - rewrite forallb_app in Hpost. apply andb_true_iff in Hpost as [Hpost Hx].
    simpl in Hx. rewrite andb_true_r in Hx. apply negb_true_iff in Hx.
    rewrite app_comm_cons, app_assoc, aggregate_snoc, dict_get_add_result, Hx.
    apply IH, Hpost.
Qed.

Lemma aggregate_NoDup (rs : list pydict) : NoDup (keys (aggregate rs)).
Proof.
  induction rs as [|r rs IH] using rev_ind.
  - constructor.
  - rewrite aggregate_snoc. unfold add_result.
    destruct (dict_get "action" r) as [[]|]; try exact IH.
    apply dict_set_NoDup, IH.
Qed.

Lemma aggregate_entries (rs : list pydict) (k : str) (v : pyval) :
  In (k, v) (aggregate rs) ->
  exists r, In r rs /\ v = PDict r /\ dict_get "action" r = Some (PStr k).
Proof.
  induction rs as [|r rs IH] using rev_ind; [intros []|].
  rewrite aggregate_snoc. unfold add_result.
  destruct (dict_get "action" r) as [[| | | |a| |]|] eqn:Ea;
    try (intros H; destruct (IH H) as (r' & Hin & Hr'); exists r';
         split; [apply in_or_app; left; exact Hin | exact Hr']).
  intros H. apply In_dict_set in H as [[= -> ->] | H].
  - exists r. split; [apply in_or_app; right; left; reflexivity | auto].
  - destruct (IH H) as (r' & Hin & Hr'). exists r'.
    split; [apply in_or_app; left; exact Hin | exact Hr'].
Qed.

(** ** Stripping and splitting *)

Section Strings.

Lemma lstrip_snoc (x : str) (c : char) :
  lstrip (x ++ [c])
  = match lstrip x with
    | [] => if isspace c then [] else [c]
    | y => y ++ [c]
    end.
Proof.
  induction x as [|a x IH]; simpl.
  - destruct (isspace c); reflexivity.
  - destruct (isspace a); [exact IH | reflexivity].
Qed.

(** [rstrip], read from the left. *)
Lemma rstrip_cons (c : char) (t : str) :
  rstrip (c :: t)
  = match rstrip t with
    | [] => if isspace c then [] else [c]
    | r => c :: r
    end.
Proof.
  unfold rstrip; simpl.
  rewrite lstrip_snoc.
  destruct (lstrip (rev t)) as [|a y] eqn:E; simpl.
  - destruct (isspace c); reflexivity.
  - rewrite rev_app_distr; simpl.
    destruct (rev y ++ [a]) eqn:E'; [|reflexivity].
    destruct (rev y); discriminate.
Qed.

Lemma lstrip_rstrip (s : str) : lstrip (rstrip s) = rstrip (lstrip s).
Proof.
  induction s as [|c t IH]; [reflexivity|].
  rewrite rstrip_cons; simpl.
  destruct (isspace c) eqn:Hc.
  - rewrite <- IH.
    destruct (rstrip t) as [|a r]; simpl; [reflexivity|].
    rewrite Hc. reflexivity.
  - rewrite rstrip_cons.
    destruct (rstrip t) as [|a r]; simpl; rewrite Hc; reflexivity.
Qed.

Lemma strip_rev (s : str) : strip (rev s) = rev (strip s).
Proof.
  unfold strip.
  rewrite <- (lstrip_rstrip s).
  reflexivity.
Qed.

Lemma split_nonempty (sep : char) (s : str) : split sep s <> [].
Proof.
  destruct s as [|c t]; simpl; [discriminate|].
  destruct (N.eqb c sep); [discriminate|].
  destruct (split sep t); discriminate.
Qed.

Lemma snoc_last_app (c : char) (fs : list str) (f : str) :
  snoc_last c (fs ++ [f]) = fs ++ [f ++ [c]].
Proof.
  induction fs as [|g fs IH]; [reflexivity|].
  simpl. rewrite IH.
  destruct (fs ++ [f]) eqn:E; [destruct fs; discriminate | reflexivity].
Qed.

Lemma split_snoc (sep c : char) (s : str) :
  split sep (s ++ [c])
  = if N.eqb c sep then split sep s ++ [[]] else snoc_last c (split sep s).
Proof.
  induction s as [|a s IH]; simpl.
  - destruct (N.eqb c sep); reflexivity.
  - rewrite IH.
    pose proof (split_nonempty sep s) as Hne.
    destruct (N.eqb a sep), (N.eqb c sep); simpl; try reflexivity.
    + destruct (split sep s) as [|f fs]; [contradiction | reflexivity].
    + destruct (split sep s) as [|f fs]; [contradiction|].
      simpl. destruct fs; reflexivity.
    + destruct (split sep s) as [|f fs]; [contradiction|].
      simpl. destruct fs as [|g fs]; [reflexivity|].
      destruct (snoc_last c (g :: fs)) eqn:E; [|reflexivity].
      simpl in E. destruct fs; discriminate.
Qed.

Lemma split_rev (sep : char) (s : str) :
  split sep (rev s) = rev (map (@rev char) (split sep s)).
Proof.
  induction s as [|c t IH]; [reflexivity|].
  simpl. rewrite split_snoc, IH.
  destruct (N.eqb c sep); [reflexivity|].
  pose proof (split_nonempty sep t) as Hne.
  destruct (split sep t) as [|f fs]; [contradiction|].
  simpl. apply snoc_last_app.
Qed.

Variable sep : char.
Hypothesis sep_not_space : isspace sep = false.

Lemma split_lstrip (s : str) :
  map strip (split sep (lstrip s)) = map strip (split sep s).
Proof.
  induction s as [|c t IH]; [reflexivity|].
  simpl.
  destruct (isspace c) eqn:Hc; [|reflexivity].
  assert (N.eqb c sep = false) as ->.
  { apply N.eqb_neq. intros ->. congruence. }
  rewrite IH.
  pose proof (split_nonempty sep t) as Hne.
  destruct (split sep t) as [|f fs]; [contradiction|].
  simpl. f_equal.
  unfold strip; simpl. rewrite Hc. reflexivity.
Qed.

Lemma split_rstrip (s : str) :
  map strip (split sep (rstrip s)) = map strip (split sep s).
Proof.
  unfold rstrip.
  rewrite split_rev, map_rev, map_map.
  rewrite (map_ext _ (fun f => rev (strip f))) by (intros; apply strip_rev).
  rewrite <- (map_map strip (@rev char)), split_lstrip.
  rewrite <- (rev_involutive s) at 2.
  rewrite (split_rev sep (rev s)), map_rev, !map_map.
  f_equal. apply map_ext. intros f. symmetry. apply strip_rev.
Qed.

Lemma split_strip (s : str) :
  map strip (split sep (strip s)) = map strip (split sep s).
Proof.
  unfold strip. rewrite split_rstrip. apply split_lstrip.
Qed.

End Strings.

Lemma filter_strip (l : list str) :
  map strip (filter (fun ent => nonempty (strip ent)) l)
  = filter nonempty (map strip l).
Proof.
  induction l as [|f l IH]; [reflexivity|].
  simpl. destruct (nonempty (strip f)); simpl; rewrite IH; reflexivity.
Qed.

(** ** Settled tasks *)

Lemma first_exception_none (ss : list settled) :
  first_exception ss = None <-> Forall (fun o => exists r, o = inl r) (map result ss).
Proof.
  induction ss as [|s ss IH]; simpl; [split; auto|].
  destruct (result s) as [r|e].
  - rewrite IH. split; [intros H; constructor; eauto | inversion 1; assumption].
  - split.
    + destruct (first_exception ss) as [[t e']|]; [|discriminate].
      destruct (finished_at s <=? t)%nat; discriminate.
    + inversion 1 as [|? ? [r Hr]]. discriminate.
Qed.

Lemma values_of_results (ss ss' : list settled) :
  map result ss = map result ss' -> values ss = values ss'.
Proof.
  revert ss'. induction ss as [|s ss IH]; intros [|s' ss']; simpl; try discriminate.
  - reflexivity.
  - intros [= Hs Hss]. rewrite Hs, (IH ss' Hss). reflexivity.
Qed.

Lemma first_exception_none_app (ss1 ss2 : list settled) :
  first_exception (ss1 ++ ss2) = None ->
  first_exception ss1 = None /\ first_exception ss2 = None.
Proof.
  rewrite !first_exception_none, map_app, Forall_app. auto.
Qed.

Lemma values_app (ss1 ss2 : list settled) :
  values (ss1 ++ ss2) = values ss1 ++ values ss2.
Proof.
  induction ss1 as [|s ss1 IH]; [reflexivity|].
  simpl. destruct (result s); rewrite IH; reflexivity.
Qed.

Lemma mapM_app {A B : Type} (f : A -> res B) (xs : list A) (y : A) (ys : list A)
    (zs : list B) :
  mapM f (xs ++ y :: ys) = inl zs ->
  exists zs1 z zs2,
    mapM f xs = inl zs1 /\ f y = inl z /\ mapM f ys = inl zs2 /\ zs = zs1 ++ z :: zs2.
Proof.
  revert zs. induction xs as [|x xs IH]; intros zs; simpl.
  - destruct (f y) as [z|e]; [|discriminate]. cbn [bind Monad_res].
    destruct (mapM f ys) as [zs2|e]; [|discriminate].
    intros [= <-]. exists [], z, zs2. auto.
  - destruct (f x) as [z0|e]; [|discriminate]. cbn [bind Monad_res].
    destruct (mapM f (xs ++ y :: ys)) as [zs'|e]; [|discriminate].
    destruct (IH zs' eq_refl) as (zs1 & z & zs2 & -> & Hy & Hys & ->).
    intros [= <-]. exists (z0 :: zs1), z, zs2. auto.
Qed.

Lemma mapM_Forall2 {A B : Type} (f : A -> res B) (xs : list A) (zs : list B) :
  mapM f xs = inl zs -> Forall2 (fun x z => f x = inl z) xs zs.
Proof.
  revert zs. induction xs as [|x xs IH]; intros zs; simpl.
  - intros [= <-]. constructor.
  - destruct (f x) as [z|e] eqn:E; [|discriminate]. cbn [bind Monad_res].
    destruct (mapM f xs) as [zs'|e]; [|discriminate].
    intros [= <-]. constructor; auto.
Qed.

Lemma present_app {A : Type} (l1 l2 : list (option A)) :
  present (l1 ++ l2) = present l1 ++ present l2.
Proof. apply flat_map_app. Qed.

(** ** Printing *)

Lemma print_line (python : interpreter) (line : str) (w : world) :
  print python [line] w
  = if printable python line
    then (inl tt, {| calls := calls w; stdout := stdout w ++ [line] |})
    else (inr UnicodeEncodeError, w).
Proof.
  unfold print. cbn [cut_short join]. destruct (printable python line); reflexivity.
Qed.

Section Properties.

Variable python : interpreter.
Variable repr : pyval -> str.
Variable json_dumps : pyval -> str.
Variable complete : Oracle.

(** What the scanners raise beside the decode error: [RecursionError] on a
    nesting too deep, [ValueError] on an integer of too many digits. *)
Lemma scan_raises (fuel : nat) :
  (forall depth s e,
      scan_once python fuel depth s = Raise e -> e = RecursionError \/ e = ValueError)
  /\ (forall depth s acc e,
        array_items python fuel depth s acc = Raise e -> e = RecursionError \/ e = ValueError)
  /\ (forall depth s acc e,
        object_items python fuel depth s acc = Raise e -> e = RecursionError \/ e = ValueError).
Proof.
  induction fuel as [|fuel (IHscan & IHarray & IHobject)];
    [repeat split; discriminate|].
  assert (forall neg int n s0 e,
             match_fraction python neg int n s0 = Raise e -> e = ValueError) as Hfrac.
  { intros neg int n s0 e. unfold match_fraction.
    destruct (fraction int s0) as [[mant nfrac] s1].
    destruct (exponent s1) as [[x r]|]; [discriminate|].
    destruct nfrac; [destruct (too_many_digits python n)|]; try discriminate.
    intros [= <-]. reflexivity. }
  assert (forall neg s0 e, match_integer python neg s0 = Raise e -> e = ValueError) as Hint.
  { intros neg s0 e. unfold match_integer. destruct s0 as [|c0 t0]; [discriminate|].
    destruct (c0 =? 48)%N; [apply Hfrac|].
    destruct (isdigit c0); [|discriminate].
    destruct (digits (c0 :: t0) 0%N 0) as [[int k] r0]. apply Hfrac. }
  assert (forall s0 e, match_number python s0 = Raise e -> e = ValueError) as Hnum.
  { intros s0 e. unfold match_number. destruct s0 as [|c0 t0]; [discriminate|].
    destruct (c0 =? 45)%N; apply Hint. }
  assert (forall word v s0 e, keyword python word v s0 = Raise e -> e = ValueError) as Hkey.
  { intros word v s0 e. unfold keyword.
    destruct (after_prefix word s0); [discriminate | apply Hnum]. }
  assert (forall word v depth s0 e,
             constant python word v depth s0 = Raise e ->
             e = RecursionError \/ e = ValueError) as Hconst.
  { intros word v depth s0 e. unfold constant.
    destruct (after_prefix word s0).
    - destruct (_ <=? _)%nat; [discriminate | intros [= <-]; auto].
    - intros H. right. eapply Hnum, H. }
  assert (forall depth e, malformed python depth = Raise e ->
                          e = RecursionError \/ e = ValueError) as Hbad.
  { intros depth e H. left. eapply malformed_raise, H. }
  split; [|split].
  - intros depth s e. cbn [scan_once].
    destruct s as [|c t]; [discriminate|].
    destruct (c =? 34)%N.
    { destruct (scanstring t []) as [[x r']|]; [discriminate | apply Hbad]. }
    destruct (c =? 123)%N.
    { destruct depth as [|depth]; [intros [= <-]; auto|].
      destruct (skip_ws t) as [|c' r']; [apply Hbad|].
      destruct (c' =? 125)%N; [discriminate | apply IHobject]. }
    destruct (c =? 91)%N.
    { destruct depth as [|depth]; [intros [= <-]; auto|].
      destruct (skip_ws t) as [|c' r']; [discriminate|].
      destruct (c' =? 93)%N; [discriminate | apply IHarray]. }
    repeat match goal with
           | |- context [if ?b then keyword _ ?word _ _ else _] =>
               destruct b; [intros H; right; eapply Hkey, H|]
           | |- context [if ?b then constant _ ?word _ _ _ else _] =>
               destruct b; [apply Hconst|]
           end.
    intros H. right. eapply Hnum, H.
  - intros depth s acc e. cbn [array_items].
    destruct (scan_once python fuel depth s) as [v0 r0| |e0|] eqn:E; try discriminate.
    + destruct (skip_ws r0) as [|c r']; [apply Hbad|].
      destruct (c =? 93)%N; [discriminate|].
      destruct (c =? 44)%N; [apply IHarray | apply Hbad].
    + intros [= <-]. eapply IHscan, E.
  - intros depth s acc e. cbn [object_items].
    destruct s as [|q t]; [apply Hbad|].
    destruct (q =? 34)%N; [|apply Hbad].
    destruct (scanstring t []) as [[key r0]|]; [|apply Hbad].
    destruct (skip_ws r0) as [|colon r1]; [apply Hbad|].
    destruct (colon =? 58)%N; [|apply Hbad].
    destruct (scan_once python fuel depth (skip_ws r1)) as [v0 r2| |e0|] eqn:E;
      try discriminate.
    + destruct (skip_ws r2) as [|c r3]; [apply Hbad|].
      destruct (c =? 125)%N; [discriminate|].
      destruct (c =? 44)%N; [apply IHobject | apply Hbad].
    + intros [= <-]. eapply IHscan, E.
Qed.

(** The exceptions of [json.loads]. *)
Lemma json_loads_raises (s : str) (e : exn) :
  json_loads python s = inr e ->
  e = JSONDecodeError \/ e = RecursionError \/ e = ValueError.
Proof.
  unfold json_loads.
  destruct (after_prefix _ s); [intros [= <-]; auto|].
  destruct (scan_once _ _ _ _) as [v r| |e0|] eqn:E.
  - destruct (skip_ws r); [discriminate | intros [= <-]; auto].
  - intros [= <-]. auto.
  - intros [= <-]. right. eapply (proj1 (scan_raises _)), E.
  - intros [= <-]. auto.
Qed.

(** Arrays nested one deeper than the interpreter allows raise
    [RecursionError], before their end is looked for. *)
Lemma scan_too_deep (depth fuel n : nat) :
  2 * depth < fuel -> depth < n ->
  scan_once python fuel depth (repeat 91%N n) = Raise RecursionError.
Proof.
  revert fuel n. induction depth as [|depth IH]; intros fuel n Hfuel Hn.
  - destruct fuel as [|fuel]; [lia|]. destruct n as [|n]; [lia|]. reflexivity.
  - destruct fuel as [|[|fuel]]; try lia.
    destruct n as [|[|n]]; try lia.
    cbn [repeat scan_once skip_ws json_space N.eqb Pos.eqb orb array_items].
    change (91%N :: repeat 91%N n) with (repeat 91%N (S n)).
    rewrite IH by lia. reflexivity.
Qed.

Lemma json_loads_too_deep :
  json_loads python (repeat 91%N (S (recursion_remaining python))) = inr RecursionError.
Proof.
  unfold json_loads. cbn [repeat after_prefix N.eqb skip_ws json_space Pos.eqb orb].
  change (91%N :: repeat 91%N (recursion_remaining python))
    with (repeat 91%N (S (recursion_remaining python))).
  rewrite scan_too_deep; [reflexivity | | lia].
  rewrite repeat_length. lia.
Qed.

(** C1, as amended.  When the service answers the planner with a text, a text
    that decodes is returned as decoded, whatever its shape; a text that
    [json.loads] rejects with the decode error gives the empty plan and a
    printed line; the other exceptions of [json.loads], [RecursionError] on a
    nesting too deep and [ValueError] on an integer of too many digits, leave
    the parser as they are. *)
Theorem parse_falls_back_on_decode_error_only
    (self : AutonomousDispatcherAgent) (user_request content : str) (w : world) :
  outcome (complete (length (calls w)) (plan_prompt user_request)) = inl content ->
  (forall plan, json_loads python (strip content) = inl plan ->
     parse_natural_language_request python complete self user_request w
     = (inl plan, sent (plan_prompt user_request) w))
  /\ (json_loads python (strip content) = inr JSONDecodeError ->
     parse_natural_language_request python complete self user_request w
     = (inl empty_plan,
        {| calls := calls w ++ [plan_prompt user_request];
           stdout := stdout w
                     ++ [lit "[Dispatcher] JSON decoding error. Falling back to an empty plan."] |}))
  /\ (forall e, json_loads python (strip content) = inr e -> e <> JSONDecodeError ->
     (e = RecursionError \/ e = ValueError)
     /\ parse_natural_language_request python complete self user_request w
        = (inr e, sent (plan_prompt user_request) w)).
Proof.
  intros Hans.
  unfold parse_natural_language_request, chat_complete. cbn [bind Monad_M].
  rewrite Hans.
  split; [|split].
  - intros plan Hplan. rewrite Hplan. reflexivity.
  - intros Hbad. rewrite Hbad. reflexivity.
  - intros e He Hne. rewrite He.
    destruct (json_loads_raises _ _ He) as [-> | [-> | ->]];
      [contradiction | auto | auto].
Qed.

(** C5.  With the text absent or empty, the summarizer, the entity extractor
    and the translator return their empty result; the world is left as it was:
    the service is not called, and nothing is raised. *)
Theorem empty_text_gives_empty_result (self : Agent) (params : pydict) (w : world) :
  dict_get "text" params = None \/ dict_get "text" params = Some (PStr "") ->
  (class self = SummarizerAgent ->
     await complete (run repr json_dumps self (PDict params)) w
     = (inl [(lit "agent", PStr (name self)); (lit "action", PStr "summarize");
             (lit "summary", PStr "")], w))
  /\ (class self = EntityExtractorAgent ->
     await complete (run repr json_dumps self (PDict params)) w
     = (inl [(lit "agent", PStr (name self)); (lit "action", PStr "entity_extraction");
             (lit "entities", PList [])], w))
  /\ (class self = TranslatorAgent ->
     await complete (run repr json_dumps self (PDict params)) w
     = (inl [(lit "agent", PStr (name self)); (lit "action", PStr "translate");
             (lit "translated_text", PStr "")], w)).
Proof.
  intros Htext.
  assert (py_get (PDict params) "text" (PStr "") = inl (PStr "")) as Hget.
  { simpl. destruct Htext as [-> | ->]; reflexivity. }
  repeat split; intros Hclass; unfold run; rewrite Hclass.
  - unfold SummarizerAgent_run. rewrite Hget. reflexivity.
  - unfold EntityExtractorAgent_run. rewrite Hget. reflexivity.
  - unfold TranslatorAgent_run. rewrite Hget. reflexivity.
Qed.

(** C6.  With the aggregate absent or empty, the final formatter returns the
    fixed text and does not call the service. *)
Theorem empty_aggregate_gives_placeholder (self : Agent) (params : pydict) (w : world) :
  class self = FinalFormatterAgent ->
  dict_get "aggregated" params = None \/ dict_get "aggregated" params = Some (PDict []) ->
  await complete (run repr json_dumps self (PDict params)) w
  = (inl [(lit "agent", PStr (name self)); (lit "action", PStr "final_format");
          (lit "formatted_text", PStr "No result to format.")], w).
Proof.
  intros Hclass Hagg.
  unfold run, FinalFormatterAgent_run. rewrite Hclass. simpl.
  destruct Hagg as [-> | ->]; reflexivity.
Qed.

Lemma extract_entities_spec (content : str) :
  extract_entities content = entities_of_response content.
Proof.
  unfold extract_entities, entities_of_response.
  rewrite filter_strip.
  rewrite (split_strip comma) by reflexivity.
  reflexivity.
Qed.

(** C7.  When the entity extractor asks the service and is answered [content],
    the entities it returns are the fragments of [content] between commas,
    stripped, without the empty ones, in the order of the answer. *)
Theorem entities_split_stripped_in_order
    (self : Agent) (params : pyval) (prompt : str) (k : str -> pydict)
    (content : str) (w : world) :
  class self = EntityExtractorAgent ->
  run repr json_dumps self params = Complete prompt k ->
  outcome (complete (length (calls w)) prompt) = inl content ->
  await complete (run repr json_dumps self params) w
  = (inl [(lit "agent", PStr (name self)); (lit "action", PStr "entity_extraction");
          (lit "entities", PList (map PStr (entities_of_response content)))],
     sent prompt w).
Proof.
  intros Hclass Hrun Hans.
  rewrite Hrun. unfold await. rewrite Hans.
  unfold run in Hrun. rewrite Hclass in Hrun.
  unfold EntityExtractorAgent_run in Hrun.
  destruct (py_get params "text" (PStr "")) as [text|e]; [|discriminate].
  destruct (negb (truthy text)); [discriminate|].
  injection Hrun as _ <-.
  rewrite extract_entities_spec. reflexivity.
Qed.

(** C9.  Against a deterministic service, awaiting the final formatter twice
    on the same parameters gives the same outcome both times. *)
Theorem final_formatter_twice_same (self : Agent) (params : pyval) (w : world) :
  class self = FinalFormatterAgent ->
  deterministic complete ->
  fst (await complete (run repr json_dumps self params)
         (snd (await complete (run repr json_dumps self params) w)))
  = fst (await complete (run repr json_dumps self params) w).
Proof.
  intros Hclass Hdet.
  destruct (run repr json_dumps self params) as [r|e|prompt k]; try reflexivity.
  simpl.
  rewrite (Hdet (length (calls w ++ [prompt])) (length (calls w)) prompt).
  reflexivity.
Qed.

Lemma await_of_res (c : res pydict) (w : world) :
  await complete (of_res c) w = (c, w).
Proof. destruct c; reflexivity. Qed.

Lemma firstn_fake_items (k : nat) (keywords : pyval) :
  firstn k (fake_items repr keywords)
  = match k with
    | 0 => []
    | 1 => firstn 1 (fake_items repr keywords)
    | _ => fake_items repr keywords
    end.
Proof.
  destruct k as [|[|k]]; try reflexivity.
  unfold fake_items. simpl. rewrite firstn_nil. reflexivity.
Qed.

(** What the search provider returns for a stop value that slices. *)
Lemma search_returns_slice (self : Agent) (params : pydict) (items : list pyval) :
  py_slice_to
    (fake_items repr (match dict_get "keywords" params with Some v => v | None => PNone end))
    (match dict_get "max_results" params with Some v => v | None => PInt 5 end)
  = inl items ->
  exists results,
    InternetSearchAgent_run repr self (PDict params)
    = Return [(lit "agent", PStr (name self)); (lit "action", PStr "search_internet");
              (lit "results", PList results)]
    /\ length results = length items.
Proof.
  intros Hslice.
  unfold InternetSearchAgent_run. simpl py_get. cbn [bind Monad_res].
  rewrite Hslice.
  assert (exists k, items = firstn k (fake_items repr
            (match dict_get "keywords" params with Some v => v | None => PNone end)))
    as [k ->].
  { unfold py_slice_to in Hslice.
    destruct (match dict_get "max_results" params with Some v => v | None => PInt 5 end);
      try discriminate; injection Hslice as <-.
    - eexists (length _). symmetry. apply firstn_all.
    - destruct b; eexists; reflexivity.
    - destruct (0 <=? z)%Z; eexists; reflexivity. }
  rewrite firstn_fake_items.
  destruct k as [|[|k]]; eexists; split; reflexivity.
Qed.

(** C8, as amended.  The search provider never calls the service, whatever
    its parameters; it returns at most [max_results] results when that is a
    non-negative integer, and at most 5 when it is absent. *)
Theorem search_calls_nothing_and_bounds_results
    (self : Agent) (params : pydict) (w : world) :
  class self = InternetSearchAgent ->
  (forall p : pyval, snd (await complete (run repr json_dumps self p) w) = w)
  /\ (dict_get "max_results" params = None ->
      exists results,
        returned_results (run repr json_dumps self (PDict params)) = Some results
        /\ length results <= 5)
  /\ (forall n : Z,
      dict_get "max_results" params = Some (PInt n) -> (0 <= n)%Z ->
      exists results,
        returned_results (run repr json_dumps self (PDict params)) = Some results
        /\ (Z.of_nat (length results) <= n)%Z).
Proof.
  intros Hclass. unfold run. rewrite Hclass.
  split; [|split].
  - intros p. unfold InternetSearchAgent_run. rewrite await_of_res. reflexivity.
  - intros Habsent.
    destruct (search_returns_slice self params (fake_items repr
                (match dict_get "keywords" params with Some v => v | None => PNone end)))
      as (results & Hrun & Hlen).
    { rewrite Habsent. reflexivity. }
    exists results. rewrite Hrun. split; [reflexivity|].
    rewrite Hlen. simpl. lia.
  - intros n Hn Hpos.
    destruct (search_returns_slice self params (firstn (Z.to_nat n) (fake_items repr
                (match dict_get "keywords" params with Some v => v | None => PNone end))))
      as (results & Hrun & Hlen).
    { rewrite Hn. unfold py_slice_to.
      destruct (0 <=? n)%Z eqn:E; [reflexivity|]. apply Z.leb_gt in E. lia. }
    exists results. rewrite Hrun. split; [reflexivity|].
    rewrite Hlen. pose proof (firstn_le_length (Z.to_nat n) (fake_items repr
                (match dict_get "keywords" params with Some v => v | None => PNone end))).
    rewrite length_firstn. lia.
Qed.

(** ** Gathering *)

Lemma first_exception_of_failure (ss : list settled) (s : settled) (e : exn) :
  In s ss -> result s = inr e ->
  exists t e', first_exception ss = Some (t, e').
Proof.
  induction ss as [|s0 ss IH]; [intros []|].
  intros [-> | Hin] He; simpl.
  - rewrite He. destruct (first_exception ss) as [[t e']|]; [|eauto].
    destruct (finished_at s <=? t)%nat; eauto.
  - destruct (IH Hin He) as (t & e' & ->).
    destruct (result s0); [eauto|].
    destruct (finished_at s0 <=? t)%nat; eauto.
Qed.

(** The exception propagated is that of one of the tasks. *)
Lemma first_exception_raised (ss : list settled) (t : nat) (e : exn) :
  first_exception ss = Some (t, e) ->
  exists s, In s ss /\ result s = inr e /\ finished_at s = t.
Proof.
  revert t e. induction ss as [|s0 ss IH]; [discriminate|].
  intros t e. simpl.
  destruct (result s0) as [r|e0] eqn:E0.
  - intros H. destruct (IH _ _ H) as (s & Hin & Hs). exists s. split; [right|]; assumption.
  - destruct (first_exception ss) as [[t' e']|].
    + destruct (finished_at s0 <=? t')%nat; intros [= <- <-].
      * exists s0. auto using in_eq.
      * destruct (IH _ _ eq_refl) as (s & Hin & Hs). exists s. split; [right|]; assumption.
    + intros [= <- <-]. exists s0. auto using in_eq.
Qed.

Lemma values_of_successes (ss : list settled) :
  first_exception ss = None ->
  Forall2 (fun s r => result s = inl r) ss (values ss).
Proof.
  induction ss as [|s ss IH]; simpl; [constructor|].
  destruct (result s) as [r|e] eqn:E.
  - intros H. constructor; [exact E | apply IH, H].
  - destruct (first_exception ss) as [[t e']|]; [|discriminate].
    destruct (finished_at s <=? t)%nat; discriminate.
Qed.

Lemma start_produces (c : coroutine) (w w' : world) (s : settled) (r : pydict) :
  start complete c w = (s, w') -> result s = inl r -> produces c r.
Proof.
  destruct c as [r0|e|prompt k]; simpl; intros [= <- <-]; simpl.
  - intros [= <-]. constructor.
  - discriminate.
  - destruct (outcome _); [intros [= <-]; constructor | discriminate].
Qed.

Lemma start_all_produces (cs : list coroutine) (w w' : world) (ss : list settled) :
  start_all complete cs w = (ss, w') ->
  Forall2 (fun c s => forall r, result s = inl r -> produces c r) cs ss.
Proof.
  revert w ss. induction cs as [|c cs IH]; simpl; intros w ss.
  - intros [= <- <-]. constructor.
  - destruct (start complete c w) as [s w1] eqn:Es.
    destruct (start_all complete cs w1) as [ss' w2] eqn:Ess.
    intros [= <- <-]. constructor.
    + intros r. eapply start_produces, Es.
    + eapply IH, Ess.
Qed.



(** ** The loop of [dispatch] *)

Lemma dispatch_loop_app (self : AutonomousDispatcherAgent) (xs ys : list pyval)
    (tasks : list coroutine) (w : world) :
  dispatch_loop python repr json_dumps self (xs ++ ys) tasks w
  = match dispatch_loop python repr json_dumps self xs tasks w with
    | (inl tasks', w') => dispatch_loop python repr json_dumps self ys tasks' w'
    | (inr e, w') => (inr e, w')
    end.
Proof.
  revert tasks w. induction xs as [|task xs IH]; intros tasks w; [reflexivity|].
  cbn [app dispatch_loop bind Monad_M]. unfold lift.
  destruct (py_get task "action" PNone) as [action|e]; [|reflexivity].
  destruct (py_get task "params" (PDict [])) as [params|e]; [|reflexivity].
  destruct (lookup self action) as [[agent|]|e]; [apply IH| |reflexivity].
  rewrite print_line. destruct (printable python _); [apply IH | reflexivity].
Qed.

(** The loop calls nothing, only adds lines to the output, and does the same
    whatever was printed before. *)
Lemma dispatch_loop_same_calls (self : AutonomousDispatcherAgent) (items : list pyval)
    (tasks : list coroutine) (w1 w2 : world) :
  same_calls w1 w2 ->
  fst (dispatch_loop python repr json_dumps self items tasks w1)
  = fst (dispatch_loop python repr json_dumps self items tasks w2)
  /\ same_calls (snd (dispatch_loop python repr json_dumps self items tasks w1))
                (snd (dispatch_loop python repr json_dumps self items tasks w2))
  /\ calls (snd (dispatch_loop python repr json_dumps self items tasks w1)) = calls w1
  /\ (forall line, In line (stdout w1) ->
      In line (stdout (snd (dispatch_loop python repr json_dumps self items tasks w1)))).
Proof.
  revert tasks w1 w2. induction items as [|task items IH]; intros tasks w1 w2 Hw.
  - simpl. auto.
  - cbn [dispatch_loop bind Monad_M]. unfold lift.
    destruct (py_get task "action" PNone) as [action|e]; [|simpl; auto].
    destruct (py_get task "params" (PDict [])) as [params|e]; [|simpl; auto].
    destruct (lookup self action) as [[agent|]|e]; [| |simpl; auto].
    + apply IH, Hw.
    + rewrite !print_line. destruct (printable python _); [|simpl; auto].
      destruct (IH tasks
                  {| calls := calls w1; stdout := stdout w1 ++ [no_agent_line repr action] |}
                  {| calls := calls w2; stdout := stdout w2 ++ [no_agent_line repr action] |} Hw)
        as (H1 & H2 & H3 & H4).
      repeat split; auto.
      intros line Hin. apply H4. simpl. apply in_or_app. left. exact Hin.
Qed.

(** Every coroutine the loop creates is the [run] of a registered agent. *)
Lemma dispatch_loop_resolved (self : AutonomousDispatcherAgent) (items : list pyval)
    (tasks tasks' : list coroutine) (w w' : world) :
  dispatch_loop python repr json_dumps self items tasks w = (inl tasks', w') ->
  Forall (resolved repr json_dumps self) tasks ->
  Forall (resolved repr json_dumps self) tasks'.
Proof.
  revert tasks w. induction items as [|task items IH]; intros tasks w.
  - simpl. intros [= <- <-]. auto.
  - cbn [dispatch_loop bind Monad_M]. unfold lift.
    destruct (py_get task "action" PNone) as [action|e]; [|discriminate].
    destruct (py_get task "params" (PDict [])) as [params|e]; [|discriminate].
    destruct (lookup self action) as [[agent|]|e] eqn:El; [| |discriminate].
    + intros H Hall. eapply IH; [exact H|].
      apply Forall_app. split; [exact Hall|]. constructor; [|constructor].
      destruct action; try discriminate.
      simpl in El. exists s, agent, params. split; [|reflexivity].
      destruct (dict_get s (action_to_agent self)) as [o|]; [|discriminate].
      injection El as ->. reflexivity.
    + rewrite print_line. destruct (printable python _); [|discriminate].
      intros H Hall. eapply IH; [exact H | exact Hall].
Qed.

(** The loop creates the coroutines in the order of the plan. *)
Lemma dispatch_loop_in_plan_order (self : AutonomousDispatcherAgent) (items : list pyval)
    (tasks tasks' : list coroutine) (w w' : world) :
  dispatch_loop python repr json_dumps self items tasks w = (inl tasks', w') ->
  exists chosen,
    mapM (resolve repr json_dumps self) items = inl chosen
    /\ tasks' = tasks ++ present chosen.
Proof.
  revert tasks w. induction items as [|task items IH]; intros tasks w.
  - simpl. intros [= <- <-]. exists []. split; [reflexivity|].
    symmetry. apply app_nil_r.
  - cbn [dispatch_loop bind Monad_M]. unfold lift.
    destruct (py_get task "action" PNone) as [action|e] eqn:Ea; [|discriminate].
    destruct (py_get task "params" (PDict [])) as [params|e] eqn:Ep; [|discriminate].
    destruct (lookup self action) as [[agent|]|e] eqn:El; [| |discriminate].
    + intros H; apply IH in H as (chosen & Hchosen & ->).
      exists (Some (run repr json_dumps agent params) :: chosen).
      split; [|rewrite <- app_assoc; reflexivity].
      cbn [mapM]. unfold resolve at 1.
      rewrite Ea. cbn [bind Monad_res]. rewrite Ep. cbn [bind Monad_res]. rewrite El.
      cbn [bind Monad_res ret option_map]. rewrite Hchosen. reflexivity.
    + rewrite print_line. destruct (printable python _); [|discriminate].
      intros H; apply IH in H as (chosen & Hchosen & ->).
      exists (None :: chosen). split; [|reflexivity].
      cbn [mapM]. unfold resolve at 1.
      rewrite Ea. cbn [bind Monad_res]. rewrite Ep. cbn [bind Monad_res]. rewrite El.
      cbn [bind Monad_res ret option_map]. rewrite Hchosen. reflexivity.
Qed.

(** ** Results of the providers *)

(** Whatever a provider returns carries its name and the action of its
    class. *)
Lemma run_result_fields (agent : Agent) (params : pyval) (r : pydict) :
  produces (run repr json_dumps agent params) r ->
  dict_get "agent" r = Some (PStr (name agent))
  /\ dict_get "action" r = Some (PStr (action_of (class agent))).
Proof.
  unfold run. destruct (class agent); simpl action_of.
  - unfold InternetSearchAgent_run, process_results.
    destruct (py_get params "keywords" PNone) as [keywords|e];
      [|inversion 1].
    destruct (py_get params "max_results" (PInt 5)) as [max_results|e];
      [|inversion 1].
    cbn [bind Monad_res].
    destruct (py_slice_to _ max_results) as [items|e]; [|inversion 1].
    cbn [bind Monad_res py_get dict_get str_eqb lit]. simpl py_iter.
    cbn [bind Monad_res].
    destruct (mapM _ items) as [processed|e]; [|inversion 1].
    cbn [bind Monad_res ret of_res]. inversion 1. split; reflexivity.
  - unfold SummarizerAgent_run.
    destruct (py_get params "text" (PStr "")) as [text|e]; [|inversion 1].
    destruct (negb (truthy text)); inversion 1; split; reflexivity.
  - unfold EntityExtractorAgent_run.
    destruct (py_get params "text" (PStr "")) as [text|e]; [|inversion 1].
    destruct (negb (truthy text)); inversion 1; split; reflexivity.
  - unfold TranslatorAgent_run.
    destruct (py_get params "text" (PStr "")) as [text|e]; [|inversion 1].
    cbn [bind Monad_res].
    destruct (py_get params "target_language" (PStr "en")) as [lang|e]; [|inversion 1].
    cbn [bind Monad_res ret].
    destruct (negb (truthy text)); inversion 1; split; reflexivity.
  - unfold FinalFormatterAgent_run.
    destruct (py_get params "aggregated" PNone) as [aggregated|e]; [|inversion 1].
    destruct (negb (truthy aggregated)); inversion 1; split; reflexivity.
Qed.

(** ** Dispatch *)

(** The world a batch leaves that raises at the time [t]: the calls taken up
    by then have been made. *)
Lemma execute_started (self : AutonomousDispatcherAgent) (plan : pyval)
    (items : list pyval) (tasks : list coroutine) (ss : list settled) (w w1 w2 : world) :
  plan_items plan = inl items ->
  dispatch_loop python repr json_dumps self items [] w = (inl tasks, w1) ->
  start_all complete tasks w1 = (ss, w2) ->
  execute python repr json_dumps complete self plan w
  = match first_exception ss with
    | Some (t, e) =>
        (inr e,
         {| calls := calls w1 ++ taken_up complete tasks (length (calls w1)) t;
            stdout := stdout w1 |})
    | None => (inl (aggregate (values ss)), w2)
    end.
Proof.
  intros Hitems Hloop Hstart.
  unfold execute. cbn [bind Monad_M]. unfold lift. rewrite Hitems, Hloop.
  unfold gather. rewrite Hstart.
  destruct (first_exception ss) as [[t e]|]; reflexivity.
Qed.

Lemma execute_returned (self : AutonomousDispatcherAgent) (plan : pyval)
    (agg : pydict) (w w' : world) :
  execute python repr json_dumps complete self plan w = (inl agg, w') ->
  exists items tasks w1 ss,
    plan_items plan = inl items
    /\ dispatch_loop python repr json_dumps self items [] w = (inl tasks, w1)
    /\ start_all complete tasks w1 = (ss, w')
    /\ first_exception ss = None
    /\ agg = aggregate (values ss).
Proof.
  unfold execute. cbn [bind Monad_M]. unfold lift.
  destruct (plan_items plan) as [items|e]; [|discriminate].
  destruct (dispatch_loop python repr json_dumps self items [] w) as [[tasks|e] w1] eqn:Hloop;
    [|discriminate].
  unfold gather.
  destruct (start_all complete tasks w1) as [ss w2] eqn:Hstart.
  destruct (first_exception ss) as [[t e]|] eqn:Hfirst; [discriminate|].
  intros [= <- <-]. exists items, tasks, w1, ss. auto.
Qed.

(** C3.  When the plan is parsed, its tasks are resolved and started, and one
    of the started invocations raises, [dispatch] raises too, with the
    exception of one of its tasks: it returns no aggregate, whatever the other
    tasks returned.  The calls made are those a thread had taken up when that
    task failed. *)
Theorem failing_task_aborts_dispatch
    (self : AutonomousDispatcherAgent) (user_request : str) (plan : pyval)
    (items : list pyval) (tasks : list coroutine) (ss : list settled)
    (s : settled) (e : exn) (w w0 w1 w2 : world) :
  parse_natural_language_request python complete self user_request w = (inl plan, w0) ->
  plan_items plan = inl items ->
  dispatch_loop python repr json_dumps self items [] w0 = (inl tasks, w1) ->
  start_all complete tasks w1 = (ss, w2) ->
  In s ss ->
  result s = inr e ->
  exists e' t,
    dispatch python repr json_dumps complete self user_request w
    = (inr e',
       {| calls := calls w1 ++ taken_up complete tasks (length (calls w1)) t;
          stdout := stdout w1 |})
    /\ exists s', In s' ss /\ result s' = inr e' /\ finished_at s' = t.
Proof.
  intros Hparse Hitems Hloop Hstart Hin He.
  unfold dispatch. cbn [bind Monad_M]. rewrite Hparse.
  rewrite (execute_started self plan items tasks ss w0 w1 w2 Hitems Hloop Hstart).
  destruct (first_exception_of_failure ss s e Hin He) as (t & e' & Hfirst).
  rewrite Hfirst. exists e', t. split; [reflexivity|].
  apply (first_exception_raised ss t e' Hfirst).
Qed.

(** When no task raises, the aggregate holds exactly one entry for an action
    that two results carry, and it is the later of the two in the list
    [gather] returns.  That list follows the plan: the tasks are the
    coroutines of the resolved items, in the order of the plan, and each
    result is the one the task at its place produced. *)
Lemma later_result_in_list_wins
    (self : AutonomousDispatcherAgent) (user_request : str) (plan : pyval)
    (items : list pyval) (tasks : list coroutine) (ss : list settled)
    (a : str) (pre mid post : list pydict) (r1 r2 : pydict) (w w0 w1 w2 : world) :
  parse_natural_language_request python complete self user_request w = (inl plan, w0) ->
  plan_items plan = inl items ->
  dispatch_loop python repr json_dumps self items [] w0 = (inl tasks, w1) ->
  start_all complete tasks w1 = (ss, w2) ->
  first_exception ss = None ->
  values ss = pre ++ r1 :: mid ++ r2 :: post ->
  has_action a r1 = true ->
  has_action a r2 = true ->
  forallb (fun r => negb (has_action a r)) post = true ->
  exists agg chosen,
    dispatch python repr json_dumps complete self user_request w = (inl agg, w2)
    /\ mapM (resolve repr json_dumps self) items = inl chosen
    /\ tasks = present chosen
    /\ Forall2 (fun c s => forall r, result s = inl r -> produces c r) tasks ss
    /\ Forall2 (fun s r => result s = inl r) ss (pre ++ r1 :: mid ++ r2 :: post)
    /\ dict_get a agg = Some (PDict r2)
    /\ length (filter (fun entry => str_eqb a (fst entry)) agg) = 1.
Proof.
  intros Hparse Hitems Hloop Hstart Hnone Hvalues H1 H2 Hpost.
  destruct (dispatch_loop_in_plan_order self items [] tasks w0 w1 Hloop)
    as (chosen & Hchosen & Htasks).
  exists (aggregate (values ss)), chosen.
  assert (dict_get a (aggregate (values ss)) = Some (PDict r2)) as Hget.
  { rewrite Hvalues.
    replace (pre ++ r1 :: mid ++ r2 :: post) with ((pre ++ r1 :: mid) ++ r2 :: post)
      by (rewrite <- app_assoc; reflexivity).
    apply aggregate_keeps_last; assumption. }
  split; [|split; [|split; [|split; [|split; [|split]]]]].
  - unfold dispatch. cbn [bind Monad_M]. rewrite Hparse.
    rewrite (execute_started self plan items tasks ss w0 w1 w2 Hitems Hloop Hstart).
    rewrite Hnone. reflexivity.
  - exact Hchosen.
  - exact Htasks.
  - eapply start_all_produces, Hstart.
  - rewrite <- Hvalues. apply values_of_successes, Hnone.
  - exact Hget.
  - rewrite entries_under_key by apply aggregate_NoDup.
    rewrite Hget. reflexivity.
Qed.

(** X2.  A plan that is not an object makes [dispatch] raise on [plan.get]:
    the fallback of the parser does not cover it. *)
Theorem dispatch_raises_on_non_object_plan
    (self : AutonomousDispatcherAgent) (user_request : str) (plan : pyval) (w w0 : world) :
  parse_natural_language_request python complete self user_request w = (inl plan, w0) ->
  (forall d, plan <> PDict d) ->
  dispatch python repr json_dumps complete self user_request w = (inr AttributeError, w0).
Proof.
  intros Hparse Hplan.
  unfold dispatch. cbn [bind Monad_M]. rewrite Hparse.
  unfold execute, plan_items. cbn [bind Monad_M Monad_res]. unfold lift.
  destruct plan; try reflexivity.
  exfalso. eapply Hplan. reflexivity.
Qed.

Lemma well_wired_entry (self : AutonomousDispatcherAgent) (a : str) (agent : Agent) :
  well_wired self = true ->
  dict_get a (action_to_agent self) = Some (Some agent) ->
  action_of (class agent) = a.
Proof.
  intros Hwired Hget. unfold well_wired in Hwired.
  rewrite forallb_forall in Hwired.
  apply dict_get_In in Hget. apply Hwired in Hget. simpl in Hget.
  apply str_eqb_eq, Hget.
Qed.

(** What a started and successful batch of resolved tasks holds: results with
    the name of a registered agent and the action of its class. *)
Lemma resolved_results (self : AutonomousDispatcherAgent) (tasks : list coroutine)
    (ss : list settled) (r : pydict) :
  Forall (resolved repr json_dumps self) tasks ->
  Forall2 (fun c s => forall r, result s = inl r -> produces c r) tasks ss ->
  In r (values ss) ->
  exists (a : str) (agent : Agent),
    dict_get a (action_to_agent self) = Some (Some agent)
    /\ dict_get "agent" r = Some (PStr (name agent))
    /\ dict_get "action" r = Some (PStr (action_of (class agent))).
Proof.
  intros Hres Hprod. revert Hres.
  induction Hprod as [|c s tasks ss Hc Hprod IH]; intros Hres; [intros []|].
  inversion Hres as [|? ? Hc_res Hres']; subst.
  simpl. destruct (result s) as [r0|e] eqn:Es; [|apply IH, Hres'].
  intros [<- | Hin]; [|apply IH; assumption].
  destruct Hc_res as (a & agent & params & Hget & ->).
  exists a, agent. split; [exact Hget|].
  apply (run_result_fields agent params), Hc. reflexivity.
Qed.

Lemma start_all_app (cs1 cs2 : list coroutine) (ss : list settled) (w w' : world) :
  start_all complete (cs1 ++ cs2) w = (ss, w') ->
  exists ss1 ss2 wm,
    start_all complete cs1 w = (ss1, wm)
    /\ start_all complete cs2 wm = (ss2, w')
    /\ ss = ss1 ++ ss2.
Proof.
  revert ss w. induction cs1 as [|c cs1 IH]; intros ss w; simpl.
  - intros H. exists [], ss, w. auto.
  - destruct (start complete c w) as [s wa].
    destruct (start_all complete (cs1 ++ cs2) wa) as [ss' wb] eqn:E.
    intros [= <- <-].
    destruct (IH ss' wa E) as (ss1 & ss2 & wm & -> & H2 & ->).
    exists (s :: ss1), ss2, wm. auto.
Qed.

(** With a well-wired registry, the result of a resolved task carries the
    action the task names. *)
Lemma resolved_task_keeps_action (self : AutonomousDispatcherAgent) (task : pyval)
    (c : coroutine) (r : pydict) :
  well_wired self = true ->
  resolve repr json_dumps self task = inl (Some c) ->
  produces c r ->
  exists a, py_get task "action" PNone = inl (PStr a)
            /\ dict_get "action" r = Some (PStr a).
Proof.
  intros Hwired. unfold resolve.
  destruct (py_get task "action" PNone) as [action|e]; [|discriminate].
  cbn [bind Monad_res].
  destruct (py_get task "params" (PDict [])) as [params|e]; [|discriminate].
  cbn [bind Monad_res].
  destruct (lookup self action) as [[agent|]|e] eqn:El; try discriminate.
  cbn [bind Monad_res ret option_map]. intros [= <-] Hr.
  destruct action; try discriminate. simpl in El.
  destruct (dict_get s (action_to_agent self)) as [o|] eqn:Hreg; [|discriminate].
  injection El as ->.
  exists s. split; [reflexivity|].
  rewrite <- (well_wired_entry self s agent Hwired Hreg).
  apply (run_result_fields agent params r Hr).
Qed.

Lemma later_tasks_lack_action (self : AutonomousDispatcherAgent) (a : str)
    (post : list pyval) (chosen : list (option coroutine)) :
  well_wired self = true ->
  Forall (fun t => py_get t "action" PNone <> inl (PStr a)) post ->
  mapM (resolve repr json_dumps self) post = inl chosen ->
  Forall (fun c => forall r, produces c r -> has_action a r = false) (present chosen).
Proof.
  intros Hwired Hpost Hchosen. apply mapM_Forall2 in Hchosen.
  induction Hchosen as [|t o post chosen Ht _ IH]; [constructor|].
  inversion Hpost as [|? ? Hta Hpost']; subst.
  destruct o as [c|]; simpl; [|apply IH, Hpost'].
  constructor; [|apply IH, Hpost'].
  intros r Hr.
  destruct (resolved_task_keeps_action self t c r Hwired Ht Hr) as (a' & Ha' & Hact).
  unfold has_action. rewrite Hact.
  apply str_eqb_neq. intros ->. contradiction.
Qed.

Lemma values_lack_action (a : str) (cs : list coroutine) (ss : list settled) :
  Forall2 (fun c s => forall r, result s = inl r -> produces c r) cs ss ->
  Forall (fun c => forall r, produces c r -> has_action a r = false) cs ->
  forallb (fun r => negb (has_action a r)) (values ss) = true.
Proof.
  induction 1 as [|c s cs ss Hc _ IH]; [reflexivity|].
  inversion 1 as [|? ? Hlack Hrest]; subst.
  simpl. destruct (result s) as [r|e]; [|apply IH, Hrest].
  simpl. rewrite (Hlack r (Hc r eq_refl)). apply IH, Hrest.
Qed.

(** C2, as amended.  The plan holds two tasks [t1] and [t2] for a registered
    action [a], in this order, and no task for [a] after [t2].  When
    [dispatch] returns an aggregate, it holds exactly one entry for [a], and
    that is the result of [t2]: the result of the coroutine created for [t2],
    at its place in the list that [gather] was given.  Nothing is asked of
    the times at which the tasks finish. *)
Theorem later_task_in_plan_wins
    (self : AutonomousDispatcherAgent) (user_request : str) (plan : pyval)
    (pre mid post : list pyval) (t1 t2 : pyval) (a : str) (agent : Agent)
    (agg : pydict) (w w0 w2 : world) :
  well_wired self = true ->
  parse_natural_language_request python complete self user_request w = (inl plan, w0) ->
  plan_items plan = inl (pre ++ t1 :: mid ++ t2 :: post) ->
  py_get t1 "action" PNone = inl (PStr a) ->
  py_get t2 "action" PNone = inl (PStr a) ->
  Forall (fun t => py_get t "action" PNone <> inl (PStr a)) post ->
  lookup self (PStr a) = inl (Some agent) ->
  dispatch python repr json_dumps complete self user_request w = (inl agg, w2) ->
  exists chosen_before c2 chosen_after ss_before s2 ss_after w1 r2,
    mapM (resolve repr json_dumps self) (pre ++ t1 :: mid) = inl chosen_before
    /\ resolve repr json_dumps self t2 = inl (Some c2)
    /\ mapM (resolve repr json_dumps self) post = inl chosen_after
    /\ start_all complete (present chosen_before ++ c2 :: present chosen_after) w1
       = (ss_before ++ s2 :: ss_after, w2)
    /\ length ss_before = length (present chosen_before)
    /\ result s2 = inl r2
    /\ dict_get a agg = Some (PDict r2)
    /\ length (filter (fun entry => str_eqb a (fst entry)) agg) = 1.
Proof.
  intros Hwired Hparse Hitems Ht1 Ht2 Hpost Hlookup Hdispatch.
  unfold dispatch in Hdispatch. cbn [bind Monad_M] in Hdispatch. rewrite Hparse in Hdispatch.
  apply execute_returned in Hdispatch
    as (items & tasks & w1 & ss & Hitems' & Hloop & Hstart & Hnone & ->).
  rewrite Hitems in Hitems'. injection Hitems' as <-.
  destruct (dispatch_loop_in_plan_order self _ [] tasks w0 w1 Hloop)
    as (chosen & Hchosen & ->).
  replace (pre ++ t1 :: mid ++ t2 :: post) with ((pre ++ t1 :: mid) ++ t2 :: post)
    in Hchosen by (rewrite <- app_assoc; reflexivity).
  apply mapM_app in Hchosen as (chosen_before & o2 & chosen_after & Hbefore & H2 & Hafter & ->).
  assert (exists c2, o2 = Some c2) as [c2 ->].
  { unfold resolve in H2. rewrite Ht2 in H2. cbn [bind Monad_res] in H2.
    destruct (py_get t2 "params" (PDict [])) as [params|e]; [|discriminate].
    cbn [bind Monad_res] in H2. rewrite Hlookup in H2.
    cbn [bind Monad_res ret option_map] in H2. injection H2 as <-. eauto. }
  simpl app in Hstart. rewrite present_app in Hstart. simpl present at 2 in Hstart.
  change (present (Some c2 :: chosen_after)) with (c2 :: present chosen_after) in Hstart.
  pose proof Hstart as Hwhole.
  apply start_all_app in Hstart as (ss_before & ss_rest & wm & Hsb & Hsr & ->).
  pose proof (start_all_produces _ _ _ _ Hsb) as Hprod_b.
  pose proof (start_all_produces _ _ _ _ Hsr) as Hprod_r.
  destruct ss_rest as [|s2 ss_after]; [inversion Hprod_r|].
  inversion Hprod_r as [|? ? ? ? Hc2 Hprod_a]; subst.
  apply first_exception_none_app in Hnone as (_ & Hnone_r).
  assert (exists r2, result s2 = inl r2) as [r2 Hr2].
  { apply first_exception_none in Hnone_r. inversion Hnone_r. assumption. }
  assert (has_action a r2 = true) as Hhas.
  { destruct (resolved_task_keeps_action self t2 c2 r2 Hwired H2 (Hc2 r2 Hr2))
      as (a' & Ha' & Hact).
    rewrite Ht2 in Ha'. injection Ha' as <-.
    unfold has_action. rewrite Hact. apply str_eqb_refl. }
  assert (dict_get a (aggregate (values (ss_before ++ s2 :: ss_after))) = Some (PDict r2))
    as Hget.
  { rewrite values_app. simpl. rewrite Hr2.
    apply aggregate_keeps_last; [exact Hhas|].
    apply (values_lack_action a (present chosen_after) ss_after Hprod_a).
    apply (later_tasks_lack_action self a post chosen_after Hwired Hpost Hafter). }
  exists chosen_before, c2, chosen_after, ss_before, s2, ss_after, w1, r2.
  repeat split; try assumption.
  - symmetry. eapply Forall2_length, Hprod_b.
  - rewrite entries_under_key by apply aggregate_NoDup. rewrite Hget. reflexivity.
Qed.

(** C10.  Every entry of an aggregate that [dispatch] returns is a result
    with an ["agent"] field, whose ["action"] field is the key of the entry;
    for a dispatcher whose registry is wired as [main] wires it, the key is
    one of the four registered actions. *)
Theorem aggregate_entries_are_registered_results
    (agent_list : list Agent) (user_request : str) (agg : pydict) (w w' : world)
    (k : str) (v : pyval) :
  dispatch python repr json_dumps complete (init agent_list) user_request w = (inl agg, w') ->
  In (k, v) agg ->
  exists r agent_name,
    v = PDict r
    /\ dict_get "agent" r = Some (PStr agent_name)
    /\ dict_get "action" r = Some (PStr k)
    /\ (well_wired (init agent_list) = true -> In k registered_actions).
Proof.
  intros Hdispatch Hin.
  unfold dispatch in Hdispatch. cbn [bind Monad_M] in Hdispatch.
  destruct (parse_natural_language_request python complete (init agent_list) user_request w)
    as [[plan|e] w0]; [|discriminate].
  apply execute_returned in Hdispatch
    as (items & tasks & w1 & ss & Hitems & Hloop & Hstart & Hnone & ->).
  apply aggregate_entries in Hin as (r & Hr & -> & Haction).
  destruct (resolved_results (init agent_list) tasks ss r) as (a & agent & Hget & Hagent & Hact).
  - eapply dispatch_loop_resolved; [exact Hloop | constructor].
  - eapply start_all_produces, Hstart.
  - exact Hr.
  - exists r, (name agent). repeat split; try assumption.
    intros Hwired.
    rewrite Haction in Hact. injection Hact as ->.
    rewrite (well_wired_entry _ _ _ Hwired Hget).
    apply dict_get_In in Hget. apply (in_map fst) in Hget. exact Hget.
Qed.


Lemma dispatch_loop_skip (self : AutonomousDispatcherAgent) (t action : pyval)
    (post : list pyval) (tasks : list coroutine) (w : world) :
  py_get t "action" PNone = inl action ->
  lookup self action = inl None ->
  dispatch_loop python repr json_dumps self (t :: post) tasks w
  = if printable python (no_agent_line repr action)
    then dispatch_loop python repr json_dumps self post tasks
           {| calls := calls w; stdout := stdout w ++ [no_agent_line repr action] |}
    else (inr UnicodeEncodeError, w).
Proof.
  intros Haction Hlookup.
  cbn [dispatch_loop bind Monad_M]. unfold lift. rewrite Haction.
  destruct t; try discriminate.
  simpl py_get. rewrite Hlookup, print_line.
  destruct (printable python _); reflexivity.
Qed.

Lemma dispatch_loop_all_skipped (self : AutonomousDispatcherAgent) (items : list pyval)
    (tasks : list coroutine) (w : world) :
  Forall (fun t => exists action,
            py_get t "action" PNone = inl action /\ lookup self action = inl None
            /\ printable python (no_agent_line repr action) = true) items ->
  fst (dispatch_loop python repr json_dumps self items tasks w) = inl tasks
  /\ calls (snd (dispatch_loop python repr json_dumps self items tasks w)) = calls w.
Proof.
  intros Hall. revert w.
  induction Hall as [|t items (action & Haction & Hlookup & Hprint) _ IH];
    intros w; [auto|].
  rewrite (dispatch_loop_skip self t action items tasks w Haction Hlookup), Hprint.
  destruct (IH {| calls := calls w; stdout := stdout w ++ [no_agent_line repr action] |})
    as (Htasks & Hcalls).
  split; [exact Htasks | rewrite Hcalls; reflexivity].
Qed.

(** X3.  A plan all of whose tasks name actions without a provider, in lines
    that can be printed, gives the empty aggregate, without a call to the
    service. *)
Theorem only_unregistered_actions_give_empty_aggregate
    (self : AutonomousDispatcherAgent) (plan : pyval) (items : list pyval) (w : world) :
  plan_items plan = inl items ->
  Forall (fun t => exists action,
            py_get t "action" PNone = inl action /\ lookup self action = inl None
            /\ printable python (no_agent_line repr action) = true) items ->
  fst (execute python repr json_dumps complete self plan w) = inl []
  /\ calls (snd (execute python repr json_dumps complete self plan w)) = calls w.
Proof.
  intros Hitems Hall.
  destruct (dispatch_loop_all_skipped self items [] w Hall) as (Htasks & Hcalls).
  unfold execute. cbn [bind Monad_M]. unfold lift. rewrite Hitems.
  destruct (dispatch_loop python repr json_dumps self items [] w) as [[tasks|e] w1];
    simpl in Htasks, Hcalls; [|discriminate].
  injection Htasks as ->. split; [reflexivity | exact Hcalls].
Qed.


End Properties.

(** ** Completion times play no part *)

Section Latency.

Variable python : interpreter.
Variable repr : pyval -> str.
Variable json_dumps : pyval -> str.
Variables complete complete' : Oracle.

Hypothesis same_outcomes :
  forall (n : nat) (prompt : str), outcome (complete n prompt) = outcome (complete' n prompt).

Lemma start_all_same_outcomes (cs : list coroutine) (w : world) :
  map result (fst (start_all complete cs w)) = map result (fst (start_all complete' cs w))
  /\ snd (start_all complete cs w) = snd (start_all complete' cs w).
Proof.
  revert w. induction cs as [|c cs IH]; intros w; [auto|]. simpl.
  assert (result (fst (start complete c w)) = result (fst (start complete' c w))
          /\ snd (start complete c w) = snd (start complete' c w)) as (Hr & Hw).
  { destruct c; simpl; rewrite ?same_outcomes; auto. }
  destruct (start complete c w) as [s1 w1], (start complete' c w) as [s2 w2].
  simpl in Hr, Hw. subst w2.
  destruct (IH w1) as (Hrs & Hws).
  destruct (start_all complete cs w1) as [ss1 w1'], (start_all complete' cs w1) as [ss2 w2'].
  simpl in *. split; congruence.
Qed.

(** X1.  An aggregate that [dispatch] returns is the one it returns when the
    same answers arrive at any other times. *)
Theorem dispatch_ignores_latency
    (self : AutonomousDispatcherAgent) (user_request : str) (agg : pydict) (w w' : world) :
  dispatch python repr json_dumps complete self user_request w = (inl agg, w') ->
  dispatch python repr json_dumps complete' self user_request w = (inl agg, w').
Proof.
  assert (parse_natural_language_request python complete self user_request w
          = parse_natural_language_request python complete' self user_request w) as Hparse.
  { unfold parse_natural_language_request, chat_complete. cbn [bind Monad_M].
    rewrite same_outcomes. reflexivity. }
  unfold dispatch. cbn [bind Monad_M]. rewrite <- Hparse.
  destruct (parse_natural_language_request python complete self user_request w)
    as [[plan|e] w0]; [|discriminate].
  generalize plan w0. clear plan w0 Hparse.
  intros plan w0. unfold execute, gather. cbn [bind Monad_M]. unfold lift.
  destruct (plan_items plan) as [items|e]; [|discriminate].
  destruct (dispatch_loop python repr json_dumps self items [] w0) as [[tasks|e] w1];
    [|discriminate].
  destruct (start_all_same_outcomes tasks w1) as (Hr & Hw).
  destruct (start_all complete tasks w1) as [ss w2], (start_all complete' tasks w1) as [ss' w2'].
  simpl in Hr, Hw. subst w2'.
  destruct (first_exception ss) as [[t e]|] eqn:Hfirst; [discriminate|].
  apply first_exception_none in Hfirst. rewrite Hr in Hfirst.
  apply first_exception_none in Hfirst. rewrite Hfirst.
  rewrite (values_of_results ss ss' Hr). auto.
Qed.

End Latency.

(** * Further properties *)

(** ** Stripped texts *)

Lemma lstrip_head (s : str) (c : char) (t : str) :
  lstrip s = c :: t -> isspace c = false.
Proof.
  induction s as [|a s IH]; simpl; [discriminate|].
  destruct (isspace a) eqn:Ea; [exact IH|].
  intros [= <- <-]. exact Ea.
Qed.

Lemma lstrip_fixed (s : str) :
  (forall c t, s = c :: t -> isspace c = false) -> lstrip s = s.
Proof.
  destruct s as [|c t]; [reflexivity|].
  intros H. simpl. rewrite (H c t eq_refl). reflexivity.
Qed.

Lemma lstrip_idem (s : str) : lstrip (lstrip s) = lstrip s.
Proof.
  apply lstrip_fixed. intros c t. apply lstrip_head.
Qed.

Lemma rstrip_idem (s : str) : rstrip (rstrip s) = rstrip s.
Proof.
  unfold rstrip. rewrite rev_involutive, lstrip_idem. reflexivity.
Qed.

Lemma strip_idem (s : str) : strip (strip s) = strip s.
Proof.
  unfold strip.
  rewrite (lstrip_rstrip (lstrip s)), lstrip_idem, rstrip_idem. reflexivity.
Qed.

Lemma strip_head (s : str) (c : char) (t : str) :
  strip s = c :: t -> isspace c = false.
Proof.
  unfold strip. rewrite <- lstrip_rstrip. apply lstrip_head.
Qed.

Lemma strip_last (s : str) (c : char) (t : str) :
  strip s = t ++ [c] -> isspace c = false.
Proof.
  unfold strip, rstrip. intros H.
  apply (f_equal (@rev char)) in H.
  rewrite rev_involutive, rev_app_distr in H. simpl in H.
  apply lstrip_head in H. exact H.
Qed.

(** A text without blanks at its ends is left as it is. *)
Lemma strip_fixed (s : str) :
  (forall c t, s = c :: t -> isspace c = false) ->
  (forall c t, s = t ++ [c] -> isspace c = false) ->
  strip s = s.
Proof.
  intros Hhead Hlast. unfold strip. rewrite (lstrip_fixed s Hhead).
  unfold rstrip. rewrite lstrip_fixed; [apply rev_involutive|].
  intros c t H. apply (Hlast c (rev t)).
  rewrite <- (rev_involutive s), H. reflexivity.
Qed.

Lemma lstrip_incl (s : str) (c : char) : In c (lstrip s) -> In c s.
Proof.
  induction s as [|a s IH]; simpl; [auto|].
  destruct (isspace a); [auto|]. auto.
Qed.

Lemma strip_incl (s : str) (c : char) : In c (strip s) -> In c s.
Proof.
  unfold strip, rstrip. intros H.
  apply (proj2 (in_rev _ _)), lstrip_incl in H.
  apply (proj2 (in_rev _ _)), lstrip_incl in H. exact H.
Qed.

Lemma split_without_sep (sep : char) (s : str) :
  Forall (fun f => ~ In sep f) (split sep s).
Proof.
  induction s as [|c t IH]; simpl.
  - constructor; [intros [] | constructor].
  - destruct (N.eqb c sep) eqn:E.
    + constructor; [intros [] | exact IH].
    + destruct (split sep t) as [|f fs]; [repeat constructor; intros [H|[]]|].
      * apply N.eqb_neq in E. congruence.
      * inversion IH as [|? ? Hf Hfs]; subst.
        constructor; [|exact Hfs].
        intros [H|H]; [apply N.eqb_neq in E; congruence | contradiction].
Qed.

Lemma entities_of_response_clean (response : str) :
  Forall clean (entities_of_response response).
Proof.
  unfold entities_of_response.
  pose proof (split_without_sep comma response) as Hsplit.
  induction Hsplit as [|f fs Hf _ IH]; simpl; [constructor|].
  destruct (nonempty (strip f)) eqn:E; [|exact IH].
  constructor; [|exact IH].
  repeat split.
  - intros H. rewrite H in E. discriminate.
  - apply strip_idem.
  - intros H. apply Hf, strip_incl, H.
Qed.

Lemma split_no_sep (sep : char) (x : str) :
  ~ In sep x -> split sep x = [x].
Proof.
  induction x as [|c x IH]; [reflexivity|].
  intros H. simpl.
  destruct (N.eqb c sep) eqn:E.
  - apply N.eqb_eq in E. exfalso. apply H. left. exact E.
  - rewrite IH; [reflexivity|]. intros Hin. apply H. right. exact Hin.
Qed.

Lemma split_app_sep (sep : char) (x t : str) :
  ~ In sep x -> split sep (x ++ sep :: t) = x :: split sep t.
Proof.
  induction x as [|c x IH]; intros H; simpl.
  - rewrite N.eqb_refl. reflexivity.
  - destruct (N.eqb c sep) eqn:E.
    + apply N.eqb_eq in E. exfalso. apply H. left. exact E.
    + rewrite IH; [reflexivity|]. intros Hin. apply H. right. exact Hin.
Qed.

Lemma strip_after_space (c : char) (f : str) :
  isspace c = true -> strip (c :: f) = strip f.
Proof. intros H. unfold strip. simpl. rewrite H. reflexivity. Qed.

(** Names joined by a comma and a blank are split back into the names, also
    after a blank. *)
Lemma entities_of_joined (names : list str) :
  Forall clean names ->
  entities_of_response (join ", " names) = names
  /\ entities_of_response (32%N :: join ", " names) = names.
Proof.
  unfold entities_of_response.
  induction 1 as [|x names (Hne & Hstrip & Hcomma) Hnames (IH1 & IH2)]; [auto|].
  assert (nonempty x = true) as Hx by (destruct x; [contradiction | reflexivity]).
  assert (split comma (32%N :: x) = [32%N :: x]) as Hsp.
  { apply split_no_sep. intros [H|H]; [discriminate | contradiction]. }
  assert (strip (32%N :: x) = x) as Hsx.
  { transitivity (strip x); [apply strip_after_space; reflexivity | exact Hstrip]. }
  cbn [join]. destruct names as [|y names].
  - rewrite (split_no_sep comma x Hcomma), Hsp. cbn [map filter].
    rewrite Hsx, Hstrip, Hx. auto.
  - change (lit ", ") with (comma :: [32%N]).
    change (x ++ (comma :: [32%N]) ++ join (comma :: [32%N]) (y :: names))
      with (x ++ comma :: 32%N :: join (comma :: [32%N]) (y :: names)).
    change (32%N :: x ++ comma :: 32%N :: join (comma :: [32%N]) (y :: names))
      with ((32%N :: x) ++ comma :: 32%N :: join (comma :: [32%N]) (y :: names)).
    rewrite !split_app_sep
      by first [exact Hcomma | intros [H|H]; [discriminate | contradiction]].
    cbn [map filter]. rewrite Hsx, Hstrip, Hx.
    change (comma :: [32%N]) with (lit ", ").
    rewrite IH2. auto.
Qed.

Section Providers.

Variable repr : pyval -> str.
Variable json_dumps : pyval -> str.
Variable complete : Oracle.

Lemma await_produces (c : coroutine) (r : pydict) (w w' : world) :
  await complete c w = (inl r, w') -> produces c r.
Proof.
  destruct c as [r0|e|prompt k]; simpl.
  - intros [= <- _]. constructor.
  - discriminate.
  - destruct (outcome _); [intros [= <- _]; constructor | discriminate].
Qed.

(** X4.  Whatever a provider returns names the provider under ["agent"] and
    the action of its class under ["action"]. *)
Theorem provider_result_names_agent_and_action
    (agent : Agent) (params : pyval) (r : pydict) (w w' : world) :
  await complete (run repr json_dumps agent params) w = (inl r, w') ->
  dict_get "agent" r = Some (PStr (name agent))
  /\ dict_get "action" r = Some (PStr (action_of (class agent))).
Proof.
  intros H. apply await_produces in H.
  apply (run_result_fields repr json_dumps agent params r H).
Qed.

(** X5.  The text a summarizer, a translator or a final formatter returns has
    no blank at either end: stripping it again changes nothing. *)
Theorem returned_text_has_no_blank_ends
    (agent : Agent) (params : pyval) (key : str) (r : pydict) (w w' : world) :
  text_field (class agent) = Some key ->
  await complete (run repr json_dumps agent params) w = (inl r, w') ->
  exists t,
    dict_get key r = Some (PStr t)
    /\ strip t = t
    /\ (forall c rest, t = c :: rest -> isspace c = false)
    /\ (forall c init, t = init ++ [c] -> isspace c = false).
Proof.
  intros Hkey Hawait. apply await_produces in Hawait.
  assert (exists t, dict_get key r = Some (PStr t) /\ strip t = t) as (t & Hget & Hstrip).
  { unfold run in Hawait. destruct (class agent); try discriminate;
      injection Hkey as <-.
    - unfold SummarizerAgent_run in Hawait.
      destruct (py_get params "text" (PStr "")) as [text|e]; [|inversion Hawait].
      destruct (negb (truthy text)); inversion Hawait; subst; eexists; split;
        try reflexivity. apply strip_idem.
    - unfold TranslatorAgent_run in Hawait.
      destruct (py_get params "text" (PStr "")) as [text|e]; [|inversion Hawait].
      cbn [bind Monad_res] in Hawait.
      destruct (py_get params "target_language" (PStr "en")) as [lang|e];
        [|inversion Hawait].
      cbn [bind Monad_res ret] in Hawait.
      destruct (negb (truthy text)); inversion Hawait; subst; eexists; split;
        try reflexivity. apply strip_idem.
    - unfold FinalFormatterAgent_run in Hawait.
      destruct (py_get params "aggregated" PNone) as [aggregated|e]; [|inversion Hawait].
      destruct (negb (truthy aggregated)); inversion Hawait; subst; eexists; split;
        try reflexivity. apply strip_idem. }
  exists t. repeat split; try assumption.
  - intros c rest ->. apply (strip_head _ _ _ Hstrip).
  - intros c init ->. apply (strip_last _ _ _ Hstrip).
Qed.

(** X6.  Every entity the extractor returns is a name that is not empty, has
    no blank at either end and holds no comma. *)
Theorem returned_entities_are_clean
    (agent : Agent) (params : pyval) (r : pydict) (w w' : world) :
  class agent = EntityExtractorAgent ->
  await complete (run repr json_dumps agent params) w = (inl r, w') ->
  exists entities,
    dict_get "entities" r = Some (PList (map PStr entities))
    /\ Forall clean entities.
Proof.
  intros Hclass Hawait. apply await_produces in Hawait.
  unfold run in Hawait. rewrite Hclass in Hawait.
  unfold EntityExtractorAgent_run in Hawait.
  destruct (py_get params "text" (PStr "")) as [text|e]; [|inversion Hawait].
  destruct (negb (truthy text)); inversion Hawait; subst.
  - exists []. split; [reflexivity | constructor].
  - exists (extract_entities content). split; [reflexivity|].
    rewrite extract_entities_spec. apply entities_of_response_clean.
Qed.

(** X7.  Names that are clean come back as they are, in order, when the
    service answers with the names joined by a comma and a blank. *)
Theorem joined_names_come_back
    (agent : Agent) (params : pyval) (prompt : str) (k : str -> pydict)
    (names : list str) (w : world) :
  class agent = EntityExtractorAgent ->
  run repr json_dumps agent params = Complete prompt k ->
  outcome (complete (length (calls w)) prompt) = inl (join ", " names) ->
  Forall clean names ->
  await complete (run repr json_dumps agent params) w
  = (inl [(lit "agent", PStr (name agent)); (lit "action", PStr "entity_extraction");
          (lit "entities", PList (map PStr names))],
     sent prompt w).
Proof.
  intros Hclass Hrun Hans Hclean.
  rewrite Hrun. unfold await. rewrite Hans.
  unfold run in Hrun. rewrite Hclass in Hrun.
  unfold EntityExtractorAgent_run in Hrun.
  destruct (py_get params "text" (PStr "")) as [text|e]; [|discriminate].
  destruct (negb (truthy text)); [discriminate|].
  injection Hrun as _ <-.
  rewrite extract_entities_spec, (proj1 (entities_of_joined names Hclean)).
  reflexivity.
Qed.

Lemma mapM_total {A B : Type} (f : A -> res B) (g : A -> B) (l : list A) :
  (forall x, In x l -> f x = inl (g x)) -> mapM f l = inl (map g l).
Proof.
  induction l as [|a l IH]; intros H; [reflexivity|].
  simpl. rewrite (H a (in_eq a l)). cbn [bind Monad_res].
  rewrite IH; [reflexivity|]. intros x Hx. apply H. right. exact Hx.
Qed.

Lemma mapM_fails {A B : Type} (f : A -> res B) (g : A -> B) (pre post : list A)
    (bad : A) (e : exn) :
  (forall x, In x pre -> f x = inl (g x)) -> f bad = inr e ->
  mapM f (pre ++ bad :: post) = inr e.
Proof.
  induction pre as [|a pre IH]; intros H Hbad; simpl.
  - rewrite Hbad. reflexivity.
  - rewrite (H a (in_eq a pre)). cbn [bind Monad_res].
    rewrite IH; [reflexivity | | exact Hbad]. intros x Hx. apply H. right. exact Hx.
Qed.

Lemma process_item (item : pyval) :
  is_dict item = true ->
  (title <- py_get item "title" PNone ;;
   link <- py_get item "link" PNone ;;
   snippet <- py_get item "snippet" PNone ;;
   ret (PDict [(lit "title", title); (lit "url", link); (lit "snippet", snippet)]))
  = inl (processed item).
Proof. destruct item; try discriminate. reflexivity. Qed.

Lemma process_results_dicts (self : Agent) (data : pydict) (items : list pyval) :
  dict_get "items" data = Some (PList items) ->
  forallb is_dict items = true ->
  process_results self (PDict data)
  = inl [(lit "agent", PStr (name self)); (lit "action", PStr "search_internet");
         (lit "results", PList (map processed items))].
Proof.
  intros Hdata Hitems.
  unfold process_results. simpl py_get. cbn [bind Monad_res]. rewrite Hdata.
  simpl py_iter. cbn [bind Monad_res].
  rewrite (mapM_total _ processed items); [reflexivity|].
  intros item Hin. apply process_item.
  rewrite forallb_forall in Hitems. apply Hitems, Hin.
Qed.

(** X8.  [process_results] turns the items into results one for one and in
    order, renaming ["link"] to ["url"] and filling a missing field with
    [None]; data without items give no results; an item that is not a dict
    makes it raise. *)
Theorem process_results_keeps_the_items (self : Agent) (data : pydict) :
  (forall items,
     dict_get "items" data = Some (PList items) ->
     forallb is_dict items = true ->
     process_results self (PDict data)
     = inl [(lit "agent", PStr (name self)); (lit "action", PStr "search_internet");
            (lit "results", PList (map processed items))])
  /\ (dict_get "items" data = None ->
      process_results self (PDict data)
      = inl [(lit "agent", PStr (name self)); (lit "action", PStr "search_internet");
             (lit "results", PList [])])
  /\ (forall pre bad post,
        dict_get "items" data = Some (PList (pre ++ bad :: post)) ->
        forallb is_dict pre = true ->
        is_dict bad = false ->
        process_results self (PDict data) = inr AttributeError).
Proof.
  split; [apply process_results_dicts|].
  unfold process_results. simpl py_get. cbn [bind Monad_res].
  split.
  - intros ->. reflexivity.
  - intros pre bad post -> Hpre Hbad. simpl py_iter. cbn [bind Monad_res].
    rewrite (mapM_fails _ processed pre post bad AttributeError); [reflexivity| |].
    + intros item Hin. apply process_item.
      rewrite forallb_forall in Hpre. apply Hpre, Hin.
    + destruct bad; try reflexivity. discriminate.
Qed.

Lemma fake_items_are_dicts (keywords : pyval) (k : nat) :
  forallb is_dict (firstn k (fake_items repr keywords)) = true.
Proof. destruct k as [|[|[|k]]]; reflexivity. Qed.

Lemma py_slice_to_firstn {A : Type} (l items : list A) (stop : pyval) :
  py_slice_to l stop = inl items -> exists k, items = firstn k l.
Proof.
  unfold py_slice_to. destruct stop; try discriminate; intros [= <-].
  - exists (length l). symmetry. apply firstn_all.
  - destruct b; eexists; reflexivity.
  - destruct (0 <=? z)%Z; eexists; reflexivity.
Qed.

(** X9.  Whatever its parameters, a search that returns gives at most two
    results, each a dict of a title, a url and a snippet that are texts. *)
Theorem search_returns_at_most_two_entries
    (agent : Agent) (params : pyval) (r : pydict) (w w' : world) :
  class agent = InternetSearchAgent ->
  await complete (run repr json_dumps agent params) w = (inl r, w') ->
  exists results,
    dict_get "results" r = Some (PList results)
    /\ length results <= 2
    /\ Forall (fun entry =>
                 exists title url snippet,
                   entry = PDict [(lit "title", PStr title); (lit "url", PStr url);
                                  (lit "snippet", PStr snippet)]) results.
Proof.
  intros Hclass. unfold run. rewrite Hclass. unfold InternetSearchAgent_run.
  rewrite (await_of_res complete). intros [= Hrun _].
  destruct params; try discriminate. simpl py_get in Hrun. cbn [bind Monad_res] in Hrun.
  destruct (py_slice_to _ _) as [items|e] eqn:Hslice; [|discriminate].
  cbn [bind Monad_res] in Hrun.
  apply py_slice_to_firstn in Hslice as [k ->].
  erewrite process_results_dicts in Hrun;
    [|reflexivity | apply fake_items_are_dicts].
  injection Hrun as <-.
  exists (map processed (firstn k (fake_items repr
            (match dict_get "keywords" d with Some v => v | None => PNone end)))).
  split; [reflexivity|].
  rewrite (firstn_fake_items repr).
  destruct k as [|[|k]]; (split; [simpl; lia|]);
    repeat (first [apply Forall_nil | apply Forall_cons; [do 3 eexists; reflexivity|]]).
Qed.


(** X11.  Parameters that are not a dict make every provider raise
    [AttributeError] before it does anything: the service is not called. *)
Theorem parameters_that_are_no_dict_raise
    (agent : Agent) (params : pyval) (w : world) :
  is_dict params = false ->
  await complete (run repr json_dumps agent params) w = (inr AttributeError, w).
Proof.
  intros Hparams. unfold run.
  destruct (class agent);
    [unfold InternetSearchAgent_run | unfold SummarizerAgent_run
     | unfold EntityExtractorAgent_run | unfold TranslatorAgent_run
     | unfold FinalFormatterAgent_run];
    destruct params; try discriminate; reflexivity.
Qed.

End Providers.

(** ** The registry *)

Lemma agents_by_name (agent_list : list Agent) (acc : list (str * Agent)) (n : str) :
  dict_get n (fold_left (fun d agent => dict_set (name agent) agent d) agent_list acc)
  = match find (fun agent => str_eqb n (name agent)) (rev agent_list) with
    | Some agent => Some agent
    | None => dict_get n acc
    end.
Proof.
  induction agent_list as [|a l IH] using rev_ind; [reflexivity|].
  rewrite fold_left_app, rev_app_distr. simpl.
  rewrite dict_get_set, IH.
  destruct (str_eqb n (name a)); reflexivity.
Qed.

(** X12.  Under each of its four actions the registry holds the last agent of
    the list that bears the name bound to the action, and nothing when no
    agent bears it. *)
Theorem registry_holds_last_agent_of_each_name
    (agent_list : list Agent) (action agent_name : str) :
  In (action, agent_name) bindings ->
  lookup (init agent_list) (PStr action)
  = inl (find (fun agent => str_eqb agent_name (name agent)) (rev agent_list)).
Proof.
  intros Hin. cbv beta iota zeta delta [lookup init action_to_agent].
  assert (forall n, dict_get n (fold_left (fun d agent => dict_set (name agent) agent d)
                                  agent_list [])
                    = find (fun agent => str_eqb n (name agent)) (rev agent_list)) as Hfind.
  { intros n. rewrite agents_by_name.
    destruct (find _ (rev agent_list)); reflexivity. }
  rewrite !Hfind.
  simpl in Hin.
  destruct Hin as [Hin|[Hin|[Hin|[Hin|[]]]]]; injection Hin as <- <-; reflexivity.
Qed.

(** X13.  The registry answers with an agent for its four actions only; the
    agent is one of the list and bears the name bound to the action.  No
    other action, such as the formatter's, has a provider. *)
Theorem registry_answers_for_bound_names_only
    (agent_list : list Agent) (action : pyval) (agent : Agent) :
  lookup (init agent_list) action = inl (Some agent) ->
  exists a,
    action = PStr a /\ In (a, name agent) bindings /\ In agent agent_list.
Proof.
  destruct action as [| | | |a| |]; try discriminate.
  intros H. exists a. split; [reflexivity|].
  cbv beta iota zeta delta [lookup init action_to_agent] in H.
  assert (forall n, dict_get n (fold_left (fun d agent => dict_set (name agent) agent d)
                                  agent_list []) = Some agent ->
                    name agent = n /\ In agent agent_list) as Hname.
  { intros n Hn. rewrite agents_by_name in Hn.
    destruct (find _ (rev agent_list)) as [x|] eqn:Ef; [|discriminate].
    injection Hn as ->. apply find_some in Ef as [Hin Heq].
    apply str_eqb_eq in Heq. split; [auto | apply in_rev, Hin]. }
  cbn [dict_get] in H.
  repeat match type of H with
         | context [if str_eqb a ?k then _ else _] =>
             destruct (str_eqb a k) eqn:?E
         end;
    try discriminate;
    match goal with
    | E : str_eqb a _ = true |- _ => apply str_eqb_eq in E; subst a
    end;
    injection H as H; apply Hname in H as [-> Hin];
    (split; [simpl; auto 6 | exact Hin]).
Qed.

(** ** Aggregation *)

Lemma length_dict_set {V : Type} (k : str) (v : V) (d : list (str * V)) :
  length (dict_set k v d) <= S (length d).
Proof.
  induction d as [|[k' v'] d IH]; simpl; [lia|].
  destruct (str_eqb k k'); simpl; lia.
Qed.

Lemma has_action_iff (a : str) (r : pydict) :
  has_action a r = true <-> dict_get "action" r = Some (PStr a).
Proof.
  unfold has_action.
  destruct (dict_get "action" r) as [[| | | |a'| |]|];
    try (split; intros; discriminate).
  split.
  - intros H. apply str_eqb_eq in H as ->. reflexivity.
  - intros [= ->]. apply str_eqb_refl.
Qed.

Lemma aggregate_has_entry (rs : list pydict) (a : str) (r : pydict) :
  In r rs -> has_action a r = true -> dict_get a (aggregate rs) <> None.
Proof.
  induction rs as [|x rs IH] using rev_ind; [intros []|].
  intros Hin Ha. rewrite aggregate_snoc, dict_get_add_result.
  destruct (has_action a x) eqn:Ex; [discriminate|].
  apply in_app_or in Hin as [Hin|[->|[]]]; [apply IH; assumption|].
  rewrite Ha in Ex. discriminate.
Qed.

(** X14.  The aggregate has exactly one entry for each action name that some
    result carries, and none else: its keys are distinct, a name is a key
    exactly when a result has it as its action, and there are never more
    entries than results. *)
Theorem aggregate_has_one_entry_per_action (results_list : list pydict) :
  NoDup (keys (aggregate results_list))
  /\ (forall a, In a (keys (aggregate results_list))
               <-> exists r, In r results_list /\ dict_get "action" r = Some (PStr a))
  /\ length (aggregate results_list) <= length results_list.
Proof.
  split; [apply aggregate_NoDup|]. split.
  - intros a. split.
    + intros H. apply in_map_iff in H as ([k v] & <- & Hin).
      destruct (aggregate_entries _ _ _ Hin) as (r & Hr & _ & Ha).
      exists r. auto.
    + intros (r & Hin & Ha). apply has_action_iff in Ha.
      pose proof (aggregate_has_entry _ _ _ Hin Ha) as H.
      destruct (dict_get a (aggregate results_list)) as [v|] eqn:E; [|contradiction].
      apply dict_get_In in E. apply in_map_iff. exists (a, v). auto.
  - induction results_list as [|r rs IH] using rev_ind; [simpl; lia|].
    rewrite aggregate_snoc, length_app. simpl. unfold add_result.
    destruct (dict_get "action" r) as [[| | | |a| |]|]; try lia.
    pose proof (length_dict_set a (PDict r) (aggregate rs)). lia.
Qed.

(** ** The planner's answer *)

Lemma lstrip_blank (b s : str) : blank b = true -> lstrip (b ++ s) = lstrip s.
Proof.
  unfold blank. induction b as [|c b IH]; simpl; [reflexivity|].
  intros H. apply andb_prop in H as [-> H]. apply IH, H.
Qed.

Lemma blank_rev (b : str) : blank (rev b) = blank b.
Proof.
  unfold blank. induction b as [|c b IH]; simpl; [reflexivity|].
  rewrite forallb_app, IH. simpl. rewrite andb_true_r. apply andb_comm.
Qed.

Lemma rstrip_blank (s b : str) : blank b = true -> rstrip (s ++ b) = rstrip s.
Proof.
  intros H. unfold rstrip. rewrite rev_app_distr, lstrip_blank; [reflexivity|].
  rewrite blank_rev. exact H.
Qed.

Lemma strip_blank (b1 s b2 : str) :
  blank b1 = true -> blank b2 = true -> strip (b1 ++ s ++ b2) = strip s.
Proof.
  intros H1 H2. unfold strip.
  rewrite lstrip_blank by exact H1.
  rewrite <- !lstrip_rstrip, rstrip_blank by exact H2. reflexivity.
Qed.

Lemma json_space_isspace (c : char) : json_space c = true -> isspace c = true.
Proof.
  unfold json_space. intros H.
  repeat (apply orb_prop in H as [H|H]); apply N.eqb_eq in H; subst c; reflexivity.
Qed.

Lemma not_a_value (python : interpreter) (c : char) (rest : str) :
  begins_value c = false -> isspace c = false ->
  json_loads python (c :: rest) = inr JSONDecodeError.
Proof.
  intros Hb Hs. unfold begins_value in Hb.
  repeat (apply orb_false_elim in Hb as [Hb ?]).
  unfold json_loads.
  destruct (after_prefix [65279%N] (c :: rest)); [reflexivity|].
  assert (json_space c = false) as Hj.
  { destruct (json_space c) eqn:E; [|reflexivity].
    apply json_space_isspace in E. congruence. }
  cbn [skip_ws]. rewrite Hj.
  destruct (2 * length (c :: rest) + 2) as [|fuel] eqn:Ef; [simpl in Ef; lia|].
  cbn [scan_once].
  repeat match goal with
         | H : (c =? ?n)%N = false |- _ => rewrite H
         end.
  cbn [match_number match_integer].
  repeat match goal with
         | H : (c =? ?n)%N = false |- _ => rewrite H
         end.
  match goal with H : isdigit c = false |- _ => rewrite H end.
  destruct (c =? 48)%N eqn:E0; [|reflexivity].
  apply N.eqb_eq in E0. subst c. discriminate.
Qed.

Lemma subsequence_refl {A : Type} (l : list A) : subsequence l l.
Proof. induction l; constructor; assumption. Qed.

Lemma subsequence_none {A : Type} (l : list A) : subsequence [] l.
Proof. induction l; constructor; assumption. Qed.

Section Dispatching.

Variable python : interpreter.
Variable repr : pyval -> str.
Variable json_dumps : pyval -> str.

(** X15.  Blanks around the planner's answer change nothing: the request is
    parsed as with the bare answer, and the world is left the same. *)
Theorem blanks_around_the_answer_are_ignored
    (complete padded : Oracle) (self : AutonomousDispatcherAgent)
    (user_request content before after : str) (w : world) :
  outcome (complete (length (calls w)) (plan_prompt user_request)) = inl content ->
  outcome (padded (length (calls w)) (plan_prompt user_request))
  = inl (before ++ content ++ after) ->
  blank before = true -> blank after = true ->
  parse_natural_language_request python padded self user_request w
  = parse_natural_language_request python complete self user_request w.
Proof.
  intros Hc Hp Hb Ha.
  unfold parse_natural_language_request, chat_complete. cbn [bind Monad_M].
  rewrite Hc, Hp, strip_blank by assumption. reflexivity.
Qed.

Variable complete : Oracle.

(** X16.  An answer that is blank, or whose first character after the blanks
    cannot begin a JSON value (a letter of a sentence, the backquote of a code
    fence), gives the empty plan and the line about the decoding error. *)
Theorem answer_that_begins_no_value_gives_empty_plan
    (self : AutonomousDispatcherAgent) (user_request content : str) (w : world) :
  outcome (complete (length (calls w)) (plan_prompt user_request)) = inl content ->
  strip content = []
  \/ (exists c rest, strip content = c :: rest /\ begins_value c = false) ->
  parse_natural_language_request python complete self user_request w
  = (inl empty_plan,
     {| calls := calls w ++ [plan_prompt user_request];
        stdout := stdout w
                  ++ [lit "[Dispatcher] JSON decoding error. Falling back to an empty plan."] |}).
Proof.
  intros Hc Hstart.
  assert (json_loads python (strip content) = inr JSONDecodeError) as Hbad.
  { destruct Hstart as [-> | (c & rest & E & Hb)]; [reflexivity|].
    rewrite E. apply not_a_value; [exact Hb|].
    apply (strip_head content c rest E). }
  unfold parse_natural_language_request, chat_complete. cbn [bind Monad_M].
  rewrite Hc, Hbad. reflexivity.
Qed.

Lemma start_all_calls (cs : list coroutine) (w : world) :
  calls (snd (start_all complete cs w)) = calls w ++ prompts cs
  /\ stdout (snd (start_all complete cs w)) = stdout w.
Proof.
  revert w. induction cs as [|c cs IH]; intros w; simpl.
  - rewrite app_nil_r. auto.
  - destruct (start complete c w) as [s w1] eqn:Es.
    specialize (IH w1).
    destruct (start_all complete cs w1) as [ss w2]. simpl in *.
    destruct IH as [-> ->].
    destruct c as [r|e|prompt k]; simpl in Es; injection Es as <- <-; simpl;
      rewrite <- ?app_assoc; auto.
Qed.

Lemma taken_up_subsequence (cs : list coroutine) (n t : nat) :
  subsequence (taken_up complete cs n t) (prompts cs).
Proof.
  revert n. induction cs as [|[r|e|prompt k] cs IH]; intros n; simpl.
  - constructor.
  - apply IH.
  - apply IH.
  - destruct (queued (complete n prompt) <=? t)%nat; constructor; apply IH.
Qed.

Lemma dispatch_loop_of_resolved (self : AutonomousDispatcherAgent) (items : list pyval)
    (chosen : list (option coroutine)) (tasks : list coroutine) (w : world) :
  mapM (resolve repr json_dumps self) items = inl chosen ->
  skips_printable python repr self items ->
  exists w',
    dispatch_loop python repr json_dumps self items tasks w
    = (inl (tasks ++ present chosen), w')
    /\ calls w' = calls w.
Proof.
  intros Hchosen Hprint. revert chosen tasks w Hchosen.
  induction Hprint as [|task items Htask _ IH]; intros chosen tasks w.
  - simpl. intros [= <-]. exists w. simpl. rewrite app_nil_r. auto.
  - cbn [mapM]. unfold resolve at 1. cbn [dispatch_loop bind Monad_M]. unfold lift.
    destruct (py_get task "action" PNone) as [action|e]; [|discriminate].
    cbn [bind Monad_res].
    destruct (py_get task "params" (PDict [])) as [params|e]; [|discriminate].
    cbn [bind Monad_res].
    destruct (lookup self action) as [[agent|]|e] eqn:El; [| |discriminate];
      cbn [bind Monad_res ret option_map];
      destruct (mapM (resolve repr json_dumps self) items) as [rest|e]; try discriminate;
      intros [= <-].
    + destruct (IH rest (tasks ++ [run repr json_dumps agent params]) w eq_refl)
        as (w' & -> & Hw).
      exists w'. simpl. rewrite <- app_assoc. auto.
    + rewrite print_line, (Htask action eq_refl El).
      destruct (IH rest tasks
                  {| calls := calls w; stdout := stdout w ++ [no_agent_line repr action] |}
                  eq_refl) as (w' & -> & Hw).
      exists w'. auto.
Qed.

Lemma dispatch_loop_unresolved (self : AutonomousDispatcherAgent) (task : pyval)
    (post : list pyval) (e : exn) (tasks : list coroutine) (w : world) :
  resolve repr json_dumps self task = inr e ->
  dispatch_loop python repr json_dumps self (task :: post) tasks w = (inr e, w).
Proof.
  unfold resolve. cbn [dispatch_loop bind Monad_M]. unfold lift.
  destruct (py_get task "action" PNone) as [action|e']; [|intros [= <-]; reflexivity].
  cbn [bind Monad_res].
  destruct (py_get task "params" (PDict [])) as [params|e']; [|intros [= <-]; reflexivity].
  cbn [bind Monad_res].
  destruct (lookup self action) as [[agent|]|e']; [discriminate|discriminate|].
  intros [= <-]. reflexivity.
Qed.

(** X17.  A task of the plan that cannot be resolved (it is no dict, or its
    action cannot be hashed) makes [dispatch] raise before any provider is
    called, whatever the tasks before it and after it are.  It raises the
    exception of that task when the lines about the tasks skipped before it
    can be printed. *)
Theorem unresolvable_task_aborts_before_any_call
    (self : AutonomousDispatcherAgent) (plan : pyval) (before after : list pyval)
    (task : pyval) (chosen : list (option coroutine)) (e : exn) (w : world) :
  plan_items plan = inl (before ++ task :: after) ->
  mapM (resolve repr json_dumps self) before = inl chosen ->
  resolve repr json_dumps self task = inr e ->
  calls (snd (execute python repr json_dumps complete self plan w)) = calls w
  /\ (exists e', fst (execute python repr json_dumps complete self plan w) = inr e')
  /\ (skips_printable python repr self before ->
      fst (execute python repr json_dumps complete self plan w) = inr e).
Proof.
  intros Hitems Hbefore Htask.
  unfold execute. cbn [bind Monad_M]. unfold lift. rewrite Hitems.
  rewrite dispatch_loop_app.
  destruct (dispatch_loop_same_calls python repr json_dumps self before [] w w eq_refl) as (_ & _ & Hcalls & _).
  split; [|split].
  - destruct (dispatch_loop python repr json_dumps self before [] w) as [[tasks|e'] w'];
      [|exact Hcalls].
    rewrite (dispatch_loop_unresolved self task after e _ w' Htask). exact Hcalls.
  - destruct (dispatch_loop python repr json_dumps self before [] w) as [[tasks|e'] w'];
      [|exists e'; reflexivity].
    rewrite (dispatch_loop_unresolved self task after e _ w' Htask).
    exists e. reflexivity.
  - intros Hprint.
    destruct (dispatch_loop_of_resolved self before chosen [] w Hbefore Hprint)
      as (w' & -> & _).
    rewrite (dispatch_loop_unresolved self task after e _ w' Htask). reflexivity.
Qed.

(** X18.  When every task of the plan resolves, the calls [dispatch] makes
    after planning are prompts of the resolved tasks, in plan order: all of
    them when it returns an aggregate, and some of them in any case, as a
    call is dropped that no thread has taken up when a task fails. *)
Theorem calls_are_prompts_of_resolved_tasks
    (self : AutonomousDispatcherAgent) (plan : pyval) (items : list pyval)
    (chosen : list (option coroutine)) (w : world) :
  plan_items plan = inl items ->
  mapM (resolve repr json_dumps self) items = inl chosen ->
  (forall agg w',
      execute python repr json_dumps complete self plan w = (inl agg, w') ->
      calls w' = calls w ++ prompts (present chosen))
  /\ exists made,
       calls (snd (execute python repr json_dumps complete self plan w)) = calls w ++ made
       /\ subsequence made (prompts (present chosen)).
Proof.
  intros Hitems Hchosen.
  unfold execute. cbn [bind Monad_M]. unfold lift. rewrite Hitems.
  destruct (dispatch_loop_same_calls python repr json_dumps self items [] w w eq_refl) as (_ & _ & Hcalls & _).
  destruct (dispatch_loop python repr json_dumps self items [] w) as [[tasks|e] w1] eqn:Hloop;
    simpl in Hcalls.
  - apply dispatch_loop_in_plan_order in Hloop as (chosen' & Hchosen' & ->).
    rewrite Hchosen in Hchosen'. injection Hchosen' as <-. simpl app.
    unfold gather.
    pose proof (start_all_calls (present chosen) w1) as [Hstart _].
    destruct (start_all complete (present chosen) w1) as [ss w2]. simpl in Hstart.
    destruct (first_exception ss) as [[t e]|]; split.
    + discriminate.
    + exists (taken_up complete (present chosen) (length (calls w1)) t).
      simpl. rewrite Hcalls. split; [reflexivity | apply taken_up_subsequence].
    + intros agg w' [= _ <-]. rewrite Hstart, Hcalls. reflexivity.
    + exists (prompts (present chosen)). simpl. rewrite Hstart, Hcalls.
      split; [reflexivity | apply subsequence_refl].
  - split; [discriminate|].
    exists []. simpl. rewrite Hcalls, app_nil_r.
    split; [reflexivity | apply subsequence_none].
Qed.

End Dispatching.

(** ** [main] *)

Lemma digits_printable (python : interpreter) (d : Decimal.uint) :
  printable python (lit (NilEmpty.string_of_uint d)) = true.
Proof. induction d; simpl; auto. Qed.

Lemma decimal_printable (python : interpreter) (n : nat) :
  printable python (decimal n) = true.
Proof.
  unfold decimal, NilZero.string_of_uint.
  destruct (Nat.to_uint n) eqn:E; try (rewrite <- E; apply digits_printable).
  reflexivity.
Qed.

Lemma header_printable (python : interpreter) (index : nat) :
  printable python (header_line index) = true.
Proof.
  unfold header_line, printable, cat. rewrite !forallb_app.
  fold (printable python (decimal (index + 1))). rewrite decimal_printable.
  reflexivity.
Qed.

(** The [print] of a request. *)
Lemma print_request (python : interpreter) (request : str) (w : world) :
  print python ["User request:" +++ newline; request] w
  = if printable python request
    then (inl tt, {| calls := calls w; stdout := stdout w ++ [request_line request] |})
    else (inr UnicodeEncodeError,
          {| calls := calls w;
             stdout := stdout w ++ ["User request:" +++ newline +++ " "] |}).
Proof.
  unfold print. cbn [cut_short].
  change (printable python ("User request:" +++ newline)) with true. cbv iota.
  destruct (printable python request); reflexivity.
Qed.

Section Main.

Variable python : interpreter.
Variable repr : pyval -> str.
Variable json_dumps : pyval -> str.
Variable complete : Oracle.

Lemma main_loop_app (done rest : list str) (index : nat) (w : world) :
  main_loop python repr json_dumps complete (done ++ rest) index w
  = match main_loop python repr json_dumps complete done index w with
    | (inl _, w') => main_loop python repr json_dumps complete rest (index + length done) w'
    | (inr e, w') => (inr e, w')
    end.
Proof.
  revert index w. induction done as [|request done IH]; intros index w.
  - simpl. rewrite Nat.add_0_r. reflexivity.
  - cbn [app main_loop bind Monad_M].
    destruct (print python [header_line index] w) as [[[]|e] w1]; [|reflexivity].
    destruct (print python _ w1) as [[[]|e] w2]; [|reflexivity].
    destruct (dispatch python repr json_dumps complete dispatcher request w2)
      as [[agg|e] w3]; [|reflexivity].
    destruct (await complete _ w3) as [[final|e] w4]; [|reflexivity].
    destruct (print python _ w4) as [[[]|e] w5]; [|reflexivity].
    rewrite IH. simpl length. rewrite Nat.add_succ_r. reflexivity.
Qed.

(** X19.  [main] stops at the first request whose dispatch raises: the
    exception leaves [main], the later requests are neither printed nor sent,
    and the world is the one the failing dispatch left.  It stops as well,
    before any call, at a request that cannot be printed. *)
Theorem main_stops_at_the_first_failing_request
    (done rest : list str) (request : str) (index : nat) (e : exn) (w w1 w2 : world) :
  main_loop python repr json_dumps complete done index w = (inl tt, w1) ->
  (printable python request = true ->
   dispatch python repr json_dumps complete dispatcher request
     {| calls := calls w1;
        stdout := (stdout w1 ++ [header_line (index + length done)])
                  ++ [request_line request] |}
   = (inr e, w2) ->
   main_loop python repr json_dumps complete (done ++ request :: rest) index w
   = (inr e, w2))
  /\ (printable python request = false ->
      fst (main_loop python repr json_dumps complete (done ++ request :: rest) index w)
      = inr UnicodeEncodeError
      /\ calls (snd (main_loop python repr json_dumps complete (done ++ request :: rest)
                       index w))
         = calls w1).
Proof.
  intros Hdone.
  rewrite main_loop_app, Hdone.
  cbn [main_loop bind Monad_M].
  rewrite print_line, header_printable, print_request.
  split.
  - intros Hprint Hfail. rewrite Hprint. cbn [calls stdout]. rewrite Hfail. reflexivity.
  - intros Hprint. rewrite Hprint. split; reflexivity.
Qed.

(** X20.  When no answer of the service can be decoded as JSON, [main]
    raises nothing for any list of requests that can be printed: it sends one
    planning prompt per request and no other call, and prints for each
    request its header, the request, the line about the decoding error and
    the placeholder text. *)
Theorem main_survives_answers_that_are_not_json
    (requests : list str) (index : nat) (w : world) :
  (forall n prompt, exists content,
      outcome (complete n prompt) = inl content
      /\ json_loads python (strip content) = inr JSONDecodeError) ->
  Forall (fun request => printable python request = true) requests ->
  main_loop python repr json_dumps complete requests index w
  = (inl tt,
     {| calls := calls w ++ map plan_prompt requests;
        stdout := stdout w ++ fallback_output requests index |}).
Proof.
  intros Hprose Hprint. revert index w.
  induction Hprint as [|request rest Hrequest _ IH]; intros index w.
  - simpl. rewrite !app_nil_r. destruct w. reflexivity.
  - cbn [main_loop bind Monad_M].
    rewrite print_line, header_printable, print_request, Hrequest.
    unfold dispatch, parse_natural_language_request, chat_complete.
    cbn [bind Monad_M calls stdout sent].
    destruct (Hprose (length (calls w)) (plan_prompt request)) as (content & -> & ->).
    cbn [bind Monad_M ret]. rewrite print_line.
    change (printable python
              (lit "[Dispatcher] JSON decoding error. Falling back to an empty plan."))
      with true. cbv iota.
    unfold execute. cbn [bind Monad_M ret]. unfold lift. simpl.
    rewrite IH. simpl. rewrite <- !app_assoc. reflexivity.
Qed.

End Main.

(** * Examples *)

(** C1, counterexample.  An answer that is valid JSON is kept as decoded: an
    array at the root and an object without tasks are returned as they are,
    not replaced by the empty plan. *)
Lemma parse_keeps_wrong_shape :
  fst (parse_natural_language_request cpython (constant_oracle "[]") dispatcher "do nothing" fresh)
  = inl (PList [])
  /\ fst (parse_natural_language_request cpython (constant_oracle (dq "{'plan': 1}")) dispatcher
           "do nothing" fresh)
     = inl (PDict [(lit "plan", PInt 1)])
  /\ PList [] <> empty_plan
  /\ PDict [(lit "plan", PInt 1)] <> empty_plan.
Proof.
  split; [vm_compute; reflexivity|].
  split; [vm_compute; reflexivity|].
  split; discriminate.
Qed.

(** X2 at an array answered by the planner. *)
Lemma dispatch_raises_on_non_object_plan_witness :
  fst (dispatch cpython plain_repr plain_repr (constant_oracle "[]") dispatcher "do nothing" fresh)
  = inr AttributeError.
Proof.
  rewrite (dispatch_raises_on_non_object_plan cpython plain_repr plain_repr (constant_oracle "[]")
             dispatcher "do nothing" (PList []) fresh
             (sent (plan_prompt "do nothing") fresh)).
  - reflexivity.
  - vm_compute. reflexivity.
  - intros d. discriminate.
Defined.

(** C1 at an answer that is prose, not JSON, and at one of 901 open
    brackets. *)
Lemma parse_falls_back_on_decode_error_only_witness :
  fst (parse_natural_language_request cpython (constant_oracle "Sure! Here is the plan:")
         dispatcher "do nothing" fresh)
  = inl empty_plan
  /\ fst (parse_natural_language_request cpython (constant_oracle (repeat 91%N 901))
            dispatcher "do nothing" fresh)
     = inr RecursionError.
Proof.
  split.
  - rewrite (proj1 (proj2 (parse_falls_back_on_decode_error_only cpython
                             (constant_oracle "Sure! Here is the plan:") dispatcher
                             "do nothing" "Sure! Here is the plan:" fresh eq_refl))).
    + reflexivity.
    + vm_compute. reflexivity.
  - destruct (proj2 (proj2 (parse_falls_back_on_decode_error_only cpython
                              (constant_oracle (repeat 91%N 901)) dispatcher
                              "do nothing" (repeat 91%N 901) fresh eq_refl))
                RecursionError) as [_ Hraise].
    + vm_compute. reflexivity.
    + discriminate.
    + rewrite Hraise. reflexivity.
Defined.

(** The decoder at the limits of the interpreter: 900 arrays one in the other
    are decoded and 901 are not, whether they are closed or not; a missing
    comma is a decode error inside 897 arrays and a [RecursionError] inside
    898, where the levels left do not suffice to raise the decode error; an
    integer of 4300 digits is decoded and one of 4301 is not, while a float
    of as many digits is. *)
Lemma json_loads_at_the_limits :
  returns (json_loads cpython (repeat 91%N 900 ++ repeat 93%N 900)) = true
  /\ json_loads cpython (repeat 91%N 901 ++ repeat 93%N 901) = inr RecursionError
  /\ json_loads cpython (repeat 91%N 901) = inr RecursionError
  /\ json_loads cpython (repeat 91%N 897 +++ "1 2") = inr JSONDecodeError
  /\ json_loads cpython (repeat 91%N 898 +++ "1 2") = inr RecursionError
  /\ returns (json_loads cpython (repeat 49%N 4300)) = true
  /\ json_loads cpython (repeat 49%N 4301) = inr ValueError
  /\ returns (json_loads cpython (repeat 49%N 4301 +++ ".5")) = true.
Proof. repeat split; vm_compute; reflexivity. Qed.

(** C2, counterexample.  Two summaries are planned; the first call is
    answered after the second.  The aggregate keeps the result of the second
    task of the plan, although the first task finished last. *)
Lemma last_completed_result_is_overwritten :
  let tasks := [run plain_repr plain_repr summarizer (PDict [(lit "text", PStr "a")]);
                run plain_repr plain_repr summarizer (PDict [(lit "text", PStr "b")])] in
  let w1 := sent (plan_prompt "summarize a and b") fresh in
  let ss := fst (start_all two_summaries tasks w1) in
  let agg := fst (dispatch cpython plain_repr plain_repr two_summaries dispatcher
                    "summarize a and b" fresh) in
  fst (parse_natural_language_request cpython two_summaries dispatcher "summarize a and b" fresh)
  = inl (plan_of [summarize_a; summarize_b])
  /\ dispatch_loop cpython plain_repr plain_repr dispatcher [summarize_a; summarize_b] [] w1
     = (inl tasks, w1)
  /\ map finished_at ss = [6; 2]
  /\ map result ss = [inl (summary_of "summarizer" "A"); inl (summary_of "summarizer" "B")]
  /\ completed_last "summarize" ss None = Some (summary_of "summarizer" "A")
  /\ agg = inl [(lit "summarize", PDict (summary_of "summarizer" "B"))]
  /\ agg <> inl [(lit "summarize", PDict (summary_of "summarizer" "A"))].
Proof.
  repeat split; try (vm_compute; reflexivity).
  vm_compute. discriminate.
Qed.

(** C2 at the same plan: the entry is the result of the second task. *)
Lemma later_task_in_plan_wins_witness :
  exists r2,
    dict_get "summarize" [(lit "summarize", PDict (summary_of "summarizer" "B"))]
    = Some (PDict r2)
    /\ r2 = summary_of "summarizer" "B"
    /\ length (filter (fun entry => str_eqb "summarize" (fst entry))
                 [(lit "summarize", PDict (summary_of "summarizer" "B"))]) = 1.
Proof.
  destruct (later_task_in_plan_wins cpython plain_repr plain_repr two_summaries dispatcher
              "summarize a and b" (plan_of [summarize_a; summarize_b])
              [] [] [] summarize_a summarize_b "summarize" summarizer
              [(lit "summarize", PDict (summary_of "summarizer" "B"))]
              fresh
              (sent (plan_prompt "summarize a and b") fresh)
              (snd (dispatch cpython plain_repr plain_repr two_summaries dispatcher
                      "summarize a and b" fresh)))
    as (chosen_before & c2 & chosen_after & ss_before & s2 & ss_after & w1 & r2
        & _ & _ & _ & _ & _ & _ & Hget & Hone);
    try (vm_compute; reflexivity).
  - constructor.
  - exists r2. split; [exact Hget|]. split; [|exact Hone].
    vm_compute in Hget. injection Hget as <-. reflexivity.
Defined.

(** C3 at a summary that succeeds and a translation whose call fails. *)
Lemma failing_task_aborts_dispatch_witness :
  exists e,
    fst (dispatch cpython plain_repr plain_repr translation_fails dispatcher
           "summarize a, translate c" fresh) = inr e.
Proof.
  destruct (failing_task_aborts_dispatch cpython plain_repr plain_repr translation_fails dispatcher
              "summarize a, translate c" (plan_of [summarize_a; translate_c])
              [summarize_a; translate_c]
              [run plain_repr plain_repr summarizer (PDict [(lit "text", PStr "a")]);
               run plain_repr plain_repr translator (PDict [(lit "text", PStr "c")])]
              [{| finished_at := 2; result := inl (summary_of "summarizer" "A") |};
               {| finished_at := 4; result := inr (ClientError "service unavailable") |}]
              {| finished_at := 4; result := inr (ClientError "service unavailable") |}
              (ClientError "service unavailable")
              fresh
              (sent (plan_prompt "summarize a, translate c") fresh)
              (sent (plan_prompt "summarize a, translate c") fresh)
              (snd (start_all translation_fails
                      [run plain_repr plain_repr summarizer (PDict [(lit "text", PStr "a")]);
                       run plain_repr plain_repr translator (PDict [(lit "text", PStr "c")])]
                      (sent (plan_prompt "summarize a, translate c") fresh))))
    as (e & t & Hdispatch & _);
    try (vm_compute; reflexivity).
  - right. left. reflexivity.
  - exists e. rewrite Hdispatch. reflexivity.
Defined.



(** C5 at parameters without text and with an empty text. *)
Lemma empty_text_gives_empty_result_witness :
  await (constant_oracle "unused") (run plain_repr plain_repr summarizer (PDict [])) fresh
  = (inl (summary_of "summarizer" ""), fresh)
  /\ await (constant_oracle "unused")
       (run plain_repr plain_repr extractor (PDict [(lit "text", PStr "")])) fresh
     = (inl [(lit "agent", PStr "entity_extraction"); (lit "action", PStr "entity_extraction");
             (lit "entities", PList [])], fresh)
  /\ await (constant_oracle "unused") (run plain_repr plain_repr translator (PDict [])) fresh
     = (inl (translation_of "translator" ""), fresh).
Proof.
  split; [|split].
  - apply (proj1 (empty_text_gives_empty_result plain_repr plain_repr
                    (constant_oracle "unused") summarizer [] fresh (or_introl eq_refl))).
    reflexivity.
  - apply (proj1 (proj2 (empty_text_gives_empty_result plain_repr plain_repr
                    (constant_oracle "unused") extractor [(lit "text", PStr "")] fresh
                    (or_intror eq_refl)))).
    reflexivity.
  - apply (proj2 (proj2 (empty_text_gives_empty_result plain_repr plain_repr
                    (constant_oracle "unused") translator [] fresh (or_introl eq_refl)))).
    reflexivity.
Defined.

(** C6 at an empty aggregate. *)
Lemma empty_aggregate_gives_placeholder_witness :
  await (constant_oracle "unused")
    (run plain_repr plain_repr final_formatter (PDict [(lit "aggregated", PDict [])])) fresh
  = (inl [(lit "agent", PStr "final_formatter"); (lit "action", PStr "final_format");
          (lit "formatted_text", PStr "No result to format.")], fresh).
Proof.
  apply (empty_aggregate_gives_placeholder plain_repr plain_repr (constant_oracle "unused")
           final_formatter [(lit "aggregated", PDict [])] fresh eq_refl (or_intror eq_refl)).
Defined.

(** C7 at an answer with blanks around the names and empty fragments. *)
Lemma entities_split_stripped_in_order_witness :
  fst (await (constant_oracle " Steve , Mary,, the theater ,  ")
         (run plain_repr plain_repr extractor (PDict [(lit "text", PStr "Steve and Mary")]))
         fresh)
  = inl [(lit "agent", PStr "entity_extraction"); (lit "action", PStr "entity_extraction");
         (lit "entities", PList [PStr "Steve"; PStr "Mary"; PStr "the theater"])].
Proof.
  destruct (run plain_repr plain_repr extractor (PDict [(lit "text", PStr "Steve and Mary")]))
    as [r|e|prompt k] eqn:Hrun; try (vm_compute in Hrun; discriminate).
  rewrite <- Hrun.
  rewrite (entities_split_stripped_in_order plain_repr plain_repr
             (constant_oracle " Steve , Mary,, the theater ,  ") extractor
             (PDict [(lit "text", PStr "Steve and Mary")]) prompt k
             " Steve , Mary,, the theater ,  " fresh eq_refl Hrun eq_refl).
  vm_compute. reflexivity.
Defined.

(** C8, counterexample.  With [max_results] at -1 the slice drops the last
    item and keeps the first: one result, more than -1. *)
Lemma search_negative_max_results_returns_one :
  option_map (@length pyval)
    (returned_results
       (run plain_repr plain_repr search_internet
          (PDict [(lit "keywords", PStr "openai"); (lit "max_results", PInt (-1))])))
  = Some 1
  /\ (-1 < Z.of_nat 1)%Z.
Proof. split; [vm_compute; reflexivity | lia]. Qed.

(** C8 at [max_results] set to 1. *)
Lemma search_calls_nothing_and_bounds_results_witness :
  snd (await (constant_oracle "unused")
         (run plain_repr plain_repr search_internet (PDict [(lit "max_results", PInt 1)])) fresh)
  = fresh
  /\ exists results,
       returned_results
         (run plain_repr plain_repr search_internet (PDict [(lit "max_results", PInt 1)]))
       = Some results
       /\ (Z.of_nat (length results) <= 1)%Z.
Proof.
  destruct (search_calls_nothing_and_bounds_results plain_repr plain_repr
              (constant_oracle "unused") search_internet [(lit "max_results", PInt 1)]
              fresh eq_refl) as (Hcalls & _ & Hbound).
  split; [apply Hcalls|].
  apply (Hbound 1%Z eq_refl). lia.
Defined.

(** C9 at a service that always gives the same text. *)
Lemma final_formatter_twice_same_witness :
  fst (await (constant_oracle " Two results. ")
         (run plain_repr plain_repr final_formatter
            (PDict [(lit "aggregated",
                     PDict [(lit "summarize", PDict (summary_of "summarizer" "A"))])]))
         (snd (await (constant_oracle " Two results. ")
                 (run plain_repr plain_repr final_formatter
                    (PDict [(lit "aggregated",
                             PDict [(lit "summarize", PDict (summary_of "summarizer" "A"))])]))
                 fresh)))
  = fst (await (constant_oracle " Two results. ")
           (run plain_repr plain_repr final_formatter
              (PDict [(lit "aggregated",
                       PDict [(lit "summarize", PDict (summary_of "summarizer" "A"))])]))
           fresh).
Proof.
  apply (final_formatter_twice_same plain_repr plain_repr (constant_oracle " Two results. ")
           final_formatter _ fresh eq_refl).
  intros n m prompt. reflexivity.
Defined.

(** C10 at the dispatcher of [main] and the plan of two summaries. *)
Lemma aggregate_entries_are_registered_results_witness :
  exists r agent_name,
    PDict (summary_of "summarizer" "B") = PDict r
    /\ dict_get "agent" r = Some (PStr agent_name)
    /\ dict_get "action" r = Some (PStr "summarize")
    /\ In (lit "summarize") registered_actions.
Proof.
  destruct (aggregate_entries_are_registered_results cpython plain_repr plain_repr two_summaries
              [summarizer; extractor; translator; search_internet]
              "summarize a and b"
              [(lit "summarize", PDict (summary_of "summarizer" "B"))]
              fresh
              (snd (dispatch cpython plain_repr plain_repr two_summaries dispatcher
                      "summarize a and b" fresh))
              "summarize" (PDict (summary_of "summarizer" "B")))
    as (r & agent_name & Hv & Hagent & Haction & Hkey).
  - vm_compute. reflexivity.
  - left. reflexivity.
  - exists r, agent_name. repeat split; try assumption.
    apply Hkey. reflexivity.
Defined.

(** With the name of the summarizer given to a formatter, the aggregate gets
    the key of the formatter's action, which no task of a plan can name. *)
Lemma miswired_registry_key :
  fst (dispatch cpython plain_repr plain_repr
         (constant_oracle (dq "{'tasks': [{'action': 'summarize'}]}")) miswired
         "summarize" fresh)
  = inl [(lit "final_format",
          PDict [(lit "agent", PStr "summarizer"); (lit "action", PStr "final_format");
                 (lit "formatted_text", PStr "No result to format.")])]
  /\ well_wired miswired = false
  /\ well_wired dispatcher = true.
Proof. repeat split; vm_compute; reflexivity. Qed.

(** X1 at the two summaries, answered in the other order. *)
Lemma dispatch_ignores_latency_witness :
  fst (dispatch cpython plain_repr plain_repr (two_summaries_after 1 5) dispatcher
         "summarize a and b" fresh)
  = inl [(lit "summarize", PDict (summary_of "summarizer" "B"))].
Proof.
  rewrite (dispatch_ignores_latency cpython plain_repr plain_repr
             (two_summaries_after 5 1) (two_summaries_after 1 5)
             (fun n prompt =>
                match n with
                | 0 | 1 | 2 => eq_refl
                | S (S (S _)) => eq_refl
                end)
             dispatcher "summarize a and b"
             [(lit "summarize", PDict (summary_of "summarizer" "B"))]
             fresh
             (snd (dispatch cpython plain_repr plain_repr (two_summaries_after 5 1) dispatcher
                     "summarize a and b" fresh))).
  - reflexivity.
  - vm_compute. reflexivity.
Defined.

(** X3 at a plan of two tasks nobody provides. *)
Lemma only_unregistered_actions_give_empty_aggregate_witness :
  fst (execute cpython plain_repr plain_repr (constant_oracle "unused") dispatcher
         (plan_of [paint; paint]) fresh) = inl []
  /\ calls (snd (execute cpython plain_repr plain_repr (constant_oracle "unused") dispatcher
                   (plan_of [paint; paint]) fresh)) = [].
Proof.
  apply (only_unregistered_actions_give_empty_aggregate cpython plain_repr plain_repr
           (constant_oracle "unused") dispatcher (plan_of [paint; paint]) [paint; paint]
           fresh eq_refl).
  repeat constructor; exists (PStr "paint"); repeat split; reflexivity.
Defined.

(** X4 at the summarizer of [main]. *)
Lemma provider_result_names_agent_and_action_witness :
  dict_get "agent" (summary_of "summarizer" "A") = Some (PStr "summarizer")
  /\ dict_get "action" (summary_of "summarizer" "A") = Some (PStr "summarize").
Proof.
  apply (provider_result_names_agent_and_action plain_repr plain_repr (constant_oracle " A ")
           summarizer (PDict [(lit "text", PStr "a")]) (summary_of "summarizer" "A") fresh
           (sent ("Provide a concise summary for the following text:" +++ newline +++ newline
                    +++ "a") fresh)).
  vm_compute. reflexivity.
Defined.

(** X5 at a translation answered with blanks around it. *)
Lemma returned_text_has_no_blank_ends_witness :
  exists t,
    dict_get "translated_text" (translation_of "translator" "C") = Some (PStr t)
    /\ strip t = t
    /\ (forall c rest, t = c :: rest -> isspace c = false)
    /\ (forall c init, t = init ++ [c] -> isspace c = false).
Proof.
  apply (returned_text_has_no_blank_ends plain_repr plain_repr (constant_oracle "  C ")
           translator (PDict [(lit "text", PStr "c")]) "translated_text"
           (translation_of "translator" "C") fresh
           (sent ("Translate the following text into en:" +++ newline +++ newline +++ "c")
              fresh)).
  - reflexivity.
  - vm_compute. reflexivity.
Defined.

(** X6 at an answer with blanks and an empty fragment. *)
Lemma returned_entities_are_clean_witness :
  exists entities,
    dict_get "entities"
      [(lit "agent", PStr "entity_extraction"); (lit "action", PStr "entity_extraction");
       (lit "entities", PList [PStr "Steve"; PStr "Mary"])]
    = Some (PList (map PStr entities))
    /\ Forall clean entities.
Proof.
  apply (returned_entities_are_clean plain_repr plain_repr (constant_oracle " Steve , Mary,, ")
           extractor (PDict [(lit "text", PStr "a")]) _ fresh
           (snd (await (constant_oracle " Steve , Mary,, ")
                   (run plain_repr plain_repr extractor (PDict [(lit "text", PStr "a")]))
                   fresh))).
  - reflexivity.
  - vm_compute. reflexivity.
Defined.

(** X7 at two names. *)
Lemma joined_names_come_back_witness :
  fst (await (constant_oracle "Steve, Mary")
         (run plain_repr plain_repr extractor (PDict [(lit "text", PStr "a")])) fresh)
  = inl [(lit "agent", PStr "entity_extraction"); (lit "action", PStr "entity_extraction");
         (lit "entities", PList [PStr "Steve"; PStr "Mary"])].
Proof.
  erewrite (joined_names_come_back plain_repr plain_repr (constant_oracle "Steve, Mary")
              extractor (PDict [(lit "text", PStr "a")]) _ _ [lit "Steve"; lit "Mary"] fresh).
  - reflexivity.
  - reflexivity.
  - reflexivity.
  - reflexivity.
  - repeat constructor; try discriminate;
      intros H; simpl in H; repeat (destruct H as [H|H]; [discriminate|]); exact H.
Defined.

(** X8 at one item that has a title only. *)
Lemma process_results_keeps_the_items_witness :
  process_results search_internet
    (PDict [(lit "items", PList [PDict [(lit "title", PStr "T")]])])
  = inl [(lit "agent", PStr "search_internet"); (lit "action", PStr "search_internet");
         (lit "results",
          PList [PDict [(lit "title", PStr "T"); (lit "url", PNone);
                        (lit "snippet", PNone)]])].
Proof.
  apply (proj1 (process_results_keeps_the_items search_internet
                  [(lit "items", PList [PDict [(lit "title", PStr "T")]])])
           [PDict [(lit "title", PStr "T")]] eq_refl eq_refl).
Defined.

(** X9 at a search for one result. *)
Lemma search_returns_at_most_two_entries_witness :
  exists results,
    dict_get "results"
      [(lit "agent", PStr "search_internet"); (lit "action", PStr "search_internet");
       (lit "results",
        PList [PDict [(lit "title", PStr "Sample Article about x");
                      (lit "url", PStr "https://example.com/article1");
                      (lit "snippet", PStr "This is a simulated snippet for article 1.")]])]
    = Some (PList results)
    /\ length results <= 2
    /\ Forall (fun entry =>
                 exists title url snippet,
                   entry = PDict [(lit "title", PStr title); (lit "url", PStr url);
                                  (lit "snippet", PStr snippet)]) results.
Proof.
  apply (search_returns_at_most_two_entries plain_repr plain_repr (constant_oracle "unused")
           search_internet
           (PDict [(lit "keywords", PStr "x"); (lit "max_results", PInt 1)]) _ fresh fresh).
  - reflexivity.
  - vm_compute. reflexivity.
Defined.


(** X11 at a translator given a list. *)
Lemma parameters_that_are_no_dict_raise_witness :
  await (constant_oracle "unused") (run plain_repr plain_repr translator (PList [])) fresh
  = (inr AttributeError, fresh).
Proof.
  apply (parameters_that_are_no_dict_raise plain_repr plain_repr (constant_oracle "unused")
           translator (PList []) fresh eq_refl).
Defined.

(** X12 at two agents that bear the name of the summarizer. *)
Lemma registry_holds_last_agent_of_each_name_witness :
  lookup (init [summarizer; {| name := "summarizer"; class := TranslatorAgent |}])
    (PStr "summarize")
  = inl (Some {| name := "summarizer"; class := TranslatorAgent |}).
Proof.
  exact (registry_holds_last_agent_of_each_name
           [summarizer; {| name := "summarizer"; class := TranslatorAgent |}]
           "summarize" "summarizer" (or_introl eq_refl)).
Defined.

(** X13 at the dispatcher of [main] and the action of the translator. *)
Lemma registry_answers_for_bound_names_only_witness :
  exists a,
    PStr "translate" = PStr a
    /\ In (a, lit "translator") bindings
    /\ In translator [summarizer; extractor; translator; search_internet].
Proof.
  exact (registry_answers_for_bound_names_only
           [summarizer; extractor; translator; search_internet]
           (PStr "translate") translator eq_refl).
Defined.

(** X15 at an array answered with blanks around it. *)
Lemma blanks_around_the_answer_are_ignored_witness :
  parse_natural_language_request cpython (constant_oracle "  [] ") dispatcher "do nothing" fresh
  = parse_natural_language_request cpython (constant_oracle "[]") dispatcher "do nothing" fresh.
Proof.
  apply (blanks_around_the_answer_are_ignored cpython (constant_oracle "[]") (constant_oracle "  [] ")
           dispatcher "do nothing" "[]" "  " " " fresh); reflexivity.
Defined.

(** X16 at an answer that opens with a sentence. *)
Lemma answer_that_begins_no_value_gives_empty_plan_witness :
  fst (parse_natural_language_request cpython (constant_oracle "Here is the plan: {}") dispatcher
         "do nothing" fresh)
  = inl empty_plan.
Proof.
  rewrite (answer_that_begins_no_value_gives_empty_plan cpython
             (constant_oracle "Here is the plan: {}") dispatcher "do nothing"
             "Here is the plan: {}" fresh).
  - reflexivity.
  - reflexivity.
  - right. exists 72%N, (lit "ere is the plan: {}"). split; reflexivity.
Defined.

(** X17 at a plan whose second task is a text. *)
Lemma unresolvable_task_aborts_before_any_call_witness :
  calls (snd (execute cpython plain_repr plain_repr (constant_oracle "unused") dispatcher
                (plan_of [summarize_a; PStr "oops"; translate_c]) fresh)) = []
  /\ fst (execute cpython plain_repr plain_repr (constant_oracle "unused") dispatcher
            (plan_of [summarize_a; PStr "oops"; translate_c]) fresh) = inr AttributeError.
Proof.
  destruct (unresolvable_task_aborts_before_any_call cpython plain_repr plain_repr
              (constant_oracle "unused") dispatcher
              (plan_of [summarize_a; PStr "oops"; translate_c])
              [summarize_a] [translate_c] (PStr "oops")
              [Some (run plain_repr plain_repr summarizer (PDict [(lit "text", PStr "a")]))]
              AttributeError fresh eq_refl eq_refl eq_refl) as (Hcalls & _ & Hraise).
  split; [exact Hcalls|].
  apply Hraise. repeat constructor. intros action [= <-]. discriminate.
Defined.

(** X18 at a summary given a text for its parameters and a translation whose
    call waits for a thread: the summary raises in its first step, and the
    call of the translation is made or not. *)
Lemma calls_are_prompts_of_resolved_tasks_witness :
  exists made,
    calls (snd (execute cpython plain_repr plain_repr
                  (fun _ _ => waiting 1 (says "C" 0)) dispatcher
                  (plan_of [PDict [(lit "action", PStr "summarize");
                                   (lit "params", PStr "a")];
                            translate_c]) fresh))
    = [] ++ made
    /\ subsequence made
         (prompts [run plain_repr plain_repr summarizer (PStr "a");
                   run plain_repr plain_repr translator (PDict [(lit "text", PStr "c")])]).
Proof.
  apply (calls_are_prompts_of_resolved_tasks cpython plain_repr plain_repr
           (fun _ _ => waiting 1 (says "C" 0)) dispatcher
           (plan_of [PDict [(lit "action", PStr "summarize"); (lit "params", PStr "a")];
                     translate_c])
           [PDict [(lit "action", PStr "summarize"); (lit "params", PStr "a")]; translate_c]
           [Some (run plain_repr plain_repr summarizer (PStr "a"));
            Some (run plain_repr plain_repr translator (PDict [(lit "text", PStr "c")]))]
           fresh); reflexivity.
Defined.

(** A call that waits for a thread when another task raises is not made; one
    that a thread has taken up is. *)
Lemma pending_call_is_cancelled :
  let plan := plan_of [PDict [(lit "action", PStr "summarize"); (lit "params", PStr "a")];
                       translate_c] in
  execute cpython plain_repr plain_repr (fun _ _ => waiting 1 (says "C" 0)) dispatcher
    plan fresh
  = (inr AttributeError, fresh)
  /\ execute cpython plain_repr plain_repr (fun _ _ => says "C" 0) dispatcher plan fresh
     = (inr AttributeError,
        {| calls := prompts [run plain_repr plain_repr translator
                               (PDict [(lit "text", PStr "c")])];
           stdout := [] |}).
Proof. split; vm_compute; reflexivity. Qed.

(** X19 at three requests, the second of which is answered with an array. *)
Lemma main_stops_at_the_first_failing_request_witness :
  main_loop cpython plain_repr plain_repr (scripted [says "prose" 0; says "[]" 0])
    [lit "first"; lit "second"; lit "third"] 0 fresh
  = (inr AttributeError,
     {| calls := [plan_prompt "first"; plan_prompt "second"];
        stdout := fallback_output [lit "first"] 0
                  ++ [header_line 1; request_line "second"] |}).
Proof.
  destruct (main_stops_at_the_first_failing_request cpython plain_repr plain_repr
              (scripted [says "prose" 0; says "[]" 0])
              [lit "first"] [lit "third"] "second" 0 AttributeError fresh
              {| calls := [plan_prompt "first"]; stdout := fallback_output [lit "first"] 0 |}
              {| calls := [plan_prompt "first"; plan_prompt "second"];
                 stdout := fallback_output [lit "first"] 0
                           ++ [header_line 1; request_line "second"] |})
    as [Hstop _].
  - vm_compute. reflexivity.
  - apply Hstop; vm_compute; reflexivity.
Defined.

(** X20 at the three requests of [main]. *)
Lemma main_survives_answers_that_are_not_json_witness :
  main cpython plain_repr plain_repr (constant_oracle "I cannot help with that.") fresh
  = (inl tt,
     {| calls := map plan_prompt requests; stdout := fallback_output requests 0 |}).
Proof.
  apply (main_survives_answers_that_are_not_json cpython plain_repr plain_repr
           (constant_oracle "I cannot help with that.") requests 0 fresh).
  - intros n prompt. exists (lit "I cannot help with that.").
    split; [reflexivity | vm_compute; reflexivity].
  - repeat constructor.
Defined.
